(** * horovod.tensorflow: gradient synchronisation and deferred allreduce

    A shallow embedding of [horovod/tensorflow/__init__.py]: the graph
    building functions [allreduce], [broadcast_global_variables],
    [DistributedOptimizer.compute_gradients] and the two session hooks,
    a run-time semantics for the TensorFlow operations they create, and
    the properties of the synchronisation layer. *)

From Stdlib Require Import Ascii String QArith Qround.
From stdpp Require Import gmap strings list fin_maps.

Set Default Proof Using "Type".
Set Warnings "-register-all".
Local Open Scope string_scope.
Local Open Scope list_scope.

(* ===================================================================== *)
(** ** Python strings *)

(** [s.split(sep)] for a one-character separator: always at least one
    piece, an empty piece before, between and after separators. *)
Fixpoint split (sep : ascii) (s : string) : list string :=
  match s with
  | EmptyString => [EmptyString]
  | String c s' =>
      if Ascii.eqb c sep then EmptyString :: split sep s'
      else match split sep s' with
           | w :: ws => String c w :: ws
           | [] => [String c EmptyString]
           end
  end.

(** [''.join(pieces)]. *)
Definition join (pieces : list string) : string :=
  foldr String.append EmptyString pieces.

(** [''.join(name.split(':')[:-1])]: the tensor name without its output
    index (and without any other colon). *)
Definition strip_output_index (name : string) : string :=
  join (removelast (split ":"%char name)).

(* ===================================================================== *)
(** ** TensorFlow graph objects *)

Inductive DType := DT_HALF | DT_FLOAT | DT_DOUBLE | DT_INT32 | DT_INT64.

Definition is_floating (dt : DType) : bool :=
  match dt with
  | DT_HALF | DT_FLOAT | DT_DOUBLE => true
  | DT_INT32 | DT_INT64 => false
  end.

(** A static shape; [None] is a dimension unknown at graph construction. *)
Definition TensorShape := list (option nat).

Definition is_fully_defined (shape : TensorShape) : bool :=
  forallb (λ d, match d with Some _ => true | None => false end) shape.

Definition num_elements (shape : TensorShape) : nat :=
  foldr (λ d n, default 0%nat d * n)%nat 1%nat shape.

(** [tf.Variable]; the initial value is that of
    [tf.constant_initializer(c)]. *)
Record TfVariable := {
  var_name : string;
  var_shape : TensorShape;
  var_dtype : DType;
  var_initializer : Q;
  var_trainable : bool
}.

(** [tf.Tensor]: a symbolic value of the graph, kept as the expression
    that defines it.  [Output] is a tensor made by operations this module
    did not create, such as the gradient the base optimizer computes. *)
Inductive Tensor :=
| Output (name : string) (shape : TensorShape) (dtype : DType)
| ReadVariable (v : TfVariable)
| Constant (value : Q) (dtype : DType)
| Div (x y : Tensor)
| Identity (control_inputs : list Tensor) (input : Tensor)
| HorovodAllreduce (tensor : Tensor)
| HorovodAllgather (tensor : Tensor)
| HorovodBroadcast (tensor : Tensor) (root_rank : nat).

(** What [allreduce] and [compute_gradients] receive: a dense [tf.Tensor]
    (or a [tf.Variable] used as one) or a [tf.IndexedSlices]. *)
Inductive TensorLike :=
| Dense (t : Tensor)
| IndexedSlices (values indices : Tensor) (dense_shape : option Tensor).

Fixpoint tensor_dtype (t : Tensor) : DType :=
  match t with
  | Output _ _ dt => dt
  | ReadVariable v => var_dtype v
  | Constant _ dt => dt
  | Div x _ => tensor_dtype x
  | Identity _ x => tensor_dtype x
  | HorovodAllreduce x => tensor_dtype x
  | HorovodAllgather x => tensor_dtype x
  | HorovodBroadcast x _ => tensor_dtype x
  end.

(** [tensor.get_shape()]; the leading dimension of a gathered tensor is
    not known statically. *)
Fixpoint tensor_shape (t : Tensor) : TensorShape :=
  match t with
  | Output _ shape _ => shape
  | ReadVariable v => var_shape v
  | Constant _ _ => []
  | Div x _ => tensor_shape x
  | Identity _ x => tensor_shape x
  | HorovodAllreduce x => tensor_shape x
  | HorovodAllgather x => None :: tail (tensor_shape x)
  | HorovodBroadcast x _ => tensor_shape x
  end.

(** [tensor.name].  For a tensor built here the name is the one
    TensorFlow derives from the operation type; this module only ever
    reads the names of tensors it is given. *)
Definition tensor_name (t : Tensor) : string :=
  match t with
  | Output name _ _ => name
  | ReadVariable v => var_name v +:+ ":0"
  | Constant _ _ => "Cast:0"
  | Div _ _ => "div:0"
  | Identity _ _ => "Identity:0"
  | HorovodAllreduce _ => "HorovodAllreduce:0"
  | HorovodAllgather _ => "HorovodAllgather:0"
  | HorovodBroadcast _ _ => "HorovodBroadcast:0"
  end.

Definition GraphId := nat.

(** [tf.Operation]: the state-changing operations, each belonging to the
    graph it was created in. *)
Inductive Operation :=
| Assign (graph : GraphId) (ref : TfVariable) (value : Tensor)
| Group (graph : GraphId) (inputs : list Operation).

Definition op_graph (op : Operation) : GraphId :=
  match op with
  | Assign g _ _ => g
  | Group g _ => g
  end.

Module GraphKeys.
(** [horovod.tensorflow.GraphKeys.GRAD_FLIP_OPS] *)
Definition GRAD_FLIP_OPS : string := "horovod_grad_flip_ops".
(** [tf.GraphKeys.UPDATE_OPS] *)
Definition UPDATE_OPS : string := "update_ops".
End GraphKeys.

(** The default [tf.Graph] as far as this module reads or writes it. *)
Record Graph := {
  graph_id : GraphId;
  (** variables created through [tf.get_variable], by name *)
  var_store : gmap string TfVariable;
  (** [tf.global_variables()], in creation order *)
  global_variables : list TfVariable;
  (** named collections of operations *)
  collections : gmap string (list Operation);
  (** the Horovod collective operations, in the order they were added *)
  collective_ops : list Tensor
}.

(* ===================================================================== *)
(** ** Graph construction: state over the default graph, with exceptions *)

Inductive Exception :=
| ValueError (msg : string)
| AttributeError (msg : string).

Inductive Result (A : Type) :=
| Ok (a : A)
| Raise (e : Exception).
Arguments Ok {A} a.
Arguments Raise {A} e.

Definition Build (A : Type) : Type := Graph → Result (A * Graph).

Definition ret {A} (a : A) : Build A := λ g, Ok (a, g).

Definition bind {A B} (m : Build A) (k : A → Build B) : Build B :=
  λ g, match m g with
       | Ok (a, g') => k a g'
       | Raise e => Raise e
       end.

Definition raise {A} (e : Exception) : Build A := λ _, Raise e.

Declare Scope build_scope.
Delimit Scope build_scope with build.
Notation "x <- m ;; k" := (bind m (λ x, k))
  (at level 100, m at next level, right associativity) : build_scope.
Notation "m ;;; k" := (bind m (λ _, k))
  (at level 100, right associativity) : build_scope.
Local Open Scope build_scope.

(** [for x in xs: acc = body(acc, x)] *)
Fixpoint for_each {A S} (body : S → A → Build S) (xs : list A) (acc : S)
  : Build S :=
  match xs with
  | [] => ret acc
  | x :: xs' => acc' <- body acc x ;; for_each body xs' acc'
  end.

(** [tf.get_default_graph()] *)
Definition tf_get_default_graph : Build GraphId :=
  λ g, Ok (graph_id g, g).

(** [tf.global_variables()] *)
Definition tf_global_variables : Build (list TfVariable) :=
  λ g, Ok (global_variables g, g).

(** [tf.get_variable(name, shape, dtype=dtype,
    initializer=tf.constant_initializer(c), trainable=trainable)] under
    the default variable scope (no reuse): a name already in the variable
    store is an error, and so is a shape that is not fully defined. *)
Definition tf_get_variable (name : string) (shape : TensorShape)
    (dtype : DType) (c : Q) (trainable : bool) : Build TfVariable :=
  λ g, match var_store g !! name with
       | Some _ => Raise (ValueError "Variable already exists, disallowed.")
       | None =>
           if is_fully_defined shape then
             let v := {| var_name := name; var_shape := shape;
                         var_dtype := dtype; var_initializer := c;
                         var_trainable := trainable |} in
             Ok (v, {| graph_id := graph_id g;
                       var_store := <[name := v]> (var_store g);
                       global_variables := global_variables g ++ [v];
                       collections := collections g;
                       collective_ops := collective_ops g |})
           else Raise (ValueError "Shape of a new variable must be fully defined.")
       end.

(** [tf.get_collection(key)] *)
Definition tf_get_collection (key : string) : Build (list Operation) :=
  λ g, Ok (default [] (collections g !! key), g).

(** [tf.add_to_collection(key, op)] *)
Definition tf_add_to_collection (key : string) (op : Operation) : Build unit :=
  λ g, Ok (tt, {| graph_id := graph_id g;
                  var_store := var_store g;
                  global_variables := global_variables g;
                  collections :=
                    <[key := default [] (collections g !! key) ++ [op]]>
                      (collections g);
                  collective_ops := collective_ops g |}).

(** [tf.assign(ref, value)] and [ref.assign(value)] *)
Definition tf_assign (ref : TfVariable) (value : Tensor) : Build Operation :=
  λ g, Ok (Assign (graph_id g) ref value, g).

(** [tf.group] of the given operations *)
Definition tf_group (inputs : list Operation) : Build Operation :=
  λ g, Ok (Group (graph_id g) inputs, g).

(** [tf.cast(n, dtype)] of a Python integer *)
Definition tf_cast (n : Z) (dtype : DType) : Tensor :=
  Constant (inject_Z n) dtype.

(** [tf.div(x, y)] *)
Definition tf_div (x y : Tensor) : Tensor := Div x y.

(** [with tf.control_dependencies(deps): tf.identity(x)] *)
Definition tf_identity (deps : list Tensor) (x : Tensor) : Tensor :=
  Identity deps x.

(** Adding a collective operation to the graph. *)
Definition add_collective (t : Tensor) : Build Tensor :=
  λ g, Ok (t, {| graph_id := graph_id g;
                 var_store := var_store g;
                 global_variables := global_variables g;
                 collections := collections g;
                 collective_ops := collective_ops g ++ [t] |}).

(** Modelled from the spec: [horovod.tensorflow.mpi_ops._allreduce],
    [allgather] and [broadcast] are not part of this file; each adds one
    collective operation to the graph, whose run-time meaning is given
    by [eval] below following the interface the spec lists (element-wise
    sum, concatenation in rank order, the value of the root). *)
Definition _allreduce (tensor : Tensor) : Build Tensor :=
  add_collective (HorovodAllreduce tensor).

Definition allgather (tensor : Tensor) : Build Tensor :=
  add_collective (HorovodAllgather tensor).

Definition broadcast (tensor : Tensor) (root_rank : nat) : Build Tensor :=
  add_collective (HorovodBroadcast tensor root_rank).

(* ===================================================================== *)
(** ** The module [horovod.tensorflow] *)

Abbreviation GradAndVar := (option TensorLike * TfVariable)%type.

(** The wrapped optimizer, as far as the wrapper looks at it:
    [type(optimizer).__name__]. *)
Record Optimizer := { optimizer_type : string }.

Record DistributedOptimizer := {
  _optimizer : Optimizer;
  _name : string;
  _use_locking : bool;
  _device_dense : string;
  _device_sparse : string;
  _deferred : bool
}.

Record BroadcastGlobalVariablesHook := {
  root_rank : nat;
  bcast_op : option Operation;
  device : string
}.

Record PostStepHook := {
  grad_flip_ops : list Operation;
  grad_flip_ops_group : Operation
}.

Section Horovod.

(** [horovod.common.size()]: the number of processes in the group. *)
Context (size : Z).

(** [tf.train.Optimizer.compute_gradients], reached through [super()]:
    the base optimizer's list of (gradient, variable) pairs. *)
Context (Optimizer_compute_gradients : Tensor → Build (list GradAndVar)).

(** [allreduce(tensor, average, device_dense, device_sparse)];
    the devices only place the operations. *)
Definition allreduce (tensor : TensorLike) (average : bool)
    (device_dense device_sparse : string) : Build TensorLike :=
  match tensor with
  | IndexedSlices tensor_values tensor_indices tensor_dense_shape =>
      let horovod_size := tf_cast size (tensor_dtype tensor_values) in
      values <- allgather tensor_values ;;
      indices <- allgather tensor_indices ;;
      let new_values :=
        if average then tf_div values horovod_size else values in
      ret (IndexedSlices new_values indices tensor_dense_shape)
  | Dense tensor =>
      let horovod_size := tf_cast size (tensor_dtype tensor) in
      summed_tensor <- _allreduce tensor ;;
      let new_tensor :=
        if average then tf_div summed_tensor horovod_size
        else summed_tensor in
      ret (Dense new_tensor)
  end.

(** [broadcast_global_variables(root_rank)] *)
Definition broadcast_global_variables (root_rank : nat) : Build Operation :=
  vars <- tf_global_variables ;;
  assigns <- for_each
    (λ assigns var,
       value <- broadcast (ReadVariable var) root_rank ;;
       op <- tf_assign var value ;;
       ret (assigns ++ [op]))
    vars [] ;;
  tf_group assigns.

(** [BroadcastGlobalVariablesHook.__init__(root_rank, device)] *)
Definition BroadcastGlobalVariablesHook__init__ (root_rank : nat)
    (device : string) : BroadcastGlobalVariablesHook :=
  {| root_rank := root_rank; bcast_op := None; device := device |}.

(** [BroadcastGlobalVariablesHook.begin()].  A [tf.Operation] is a
    true value in Python, so [not self.bcast_op] holds exactly when the
    field is still [None]. *)
Definition begin (self : BroadcastGlobalVariablesHook)
  : Build BroadcastGlobalVariablesHook :=
  default_graph <- tf_get_default_graph ;;
  if match bcast_op self with
     | None => true
     | Some op => negb (op_graph op =? default_graph)%nat
     end
  then
    op <- broadcast_global_variables (root_rank self) ;;
    ret {| root_rank := root_rank self; bcast_op := Some op;
           device := device self |}
  else ret self.

(** [PostStepHook.__init__()] *)
Definition PostStepHook__init__ : Build PostStepHook :=
  ops <- tf_get_collection GraphKeys.GRAD_FLIP_OPS ;;
  group <- tf_group ops ;;
  ret {| grad_flip_ops := ops; grad_flip_ops_group := group |}.

(** [DistributedOptimizer.__init__(optimizer, name, use_locking,
    device_dense, device_sparse, deferred)] *)
Definition DistributedOptimizer__init__ (optimizer : Optimizer)
    (name : option string) (use_locking : bool)
    (device_dense device_sparse : string) (deferred : bool)
  : DistributedOptimizer :=
  let name := match name with
              | None => "Distributed" +:+ optimizer_type optimizer
              | Some name => name
              end in
  {| _optimizer := optimizer; _name := name; _use_locking := use_locking;
     _device_dense := device_dense; _device_sparse := device_sparse;
     _deferred := deferred |}.

(** The body of the loop of [compute_gradients] for a gradient that is
    not [None], in deferred mode.  [tf.IndexedSlices] has a name and a
    dtype (those of its values) but no [get_shape]; the reduction of a
    variable is always a dense tensor. *)
Definition deferred_allreduce (self : DistributedOptimizer) (loss : Tensor)
    (grad : TensorLike) : Build TensorLike :=
  match grad with
  | IndexedSlices _ _ _ =>
      raise (AttributeError "'IndexedSlices' object has no attribute 'get_shape'")
  | Dense grad =>
      grad_r <- tf_get_variable
                  (strip_output_index (tensor_name grad) +:+ "_r")
                  (tensor_shape grad) (tensor_dtype grad) 0 false ;;
      grad_c <- tf_get_variable
                  (strip_output_index (tensor_name grad) +:+ "_c")
                  (tensor_shape grad) (tensor_dtype grad) 0 false ;;
      reduce_grad <- allreduce (Dense (ReadVariable grad_r)) true
                       (_device_dense self) (_device_sparse self) ;;
      match reduce_grad with
      | IndexedSlices _ _ _ =>
          raise (ValueError "tf.identity of IndexedSlices")
      | Dense reduce_grad =>
          let avg_grad := tf_identity [loss] reduce_grad in
          staged <- tf_assign grad_c grad ;;
          tf_add_to_collection GraphKeys.UPDATE_OPS staged ;;;
          flip <- tf_assign grad_r (ReadVariable grad_c) ;;
          tf_add_to_collection GraphKeys.GRAD_FLIP_OPS flip ;;;
          ret (Dense avg_grad)
      end
  end.

(** The loop of [compute_gradients]: one output pair per input pair. *)
Definition allreduce_gradients (self : DistributedOptimizer) (loss : Tensor)
    (gradients : list GradAndVar) : Build (list GradAndVar) :=
  for_each
    (λ averaged_gradients '(grad, var),
       match grad with
       | Some grad =>
           avg_grad <-
             (if _deferred self then deferred_allreduce self loss grad
              else allreduce grad true
                     (_device_dense self) (_device_sparse self)) ;;
           ret (averaged_gradients ++ [(Some avg_grad, var)])
       | None => ret (averaged_gradients ++ [(None, var)])
       end)
    gradients [].

(** [DistributedOptimizer.compute_gradients(loss)] *)
Definition compute_gradients (self : DistributedOptimizer) (loss : Tensor)
  : Build (list GradAndVar) :=
  gradients <- Optimizer_compute_gradients loss ;;
  if (1 <? size)%Z then allreduce_gradients self loss gradients
  else ret gradients.

End Horovod.

(* ===================================================================== *)
(** ** Running the graph *)

(** The contents of a tensor at run time: its elements in row-major
    order, so that concatenation along the leading dimension is
    concatenation of the data.  Integer tensors hold integral rationals. *)
Abbreviation Value := (list Q).

(** A [tf.Session] of one process: the current value of each variable
    and the number of [run] calls made on it. *)
Record Session := {
  variables : gmap string Value;
  run_calls : nat
}.

(** One process of the group during a [run] call: [computed] holds the
    values that the operations outside this module produce in this run
    (the locally computed gradients), by tensor name. *)
Record Process := {
  computed : gmap string Value;
  session : Session
}.

(** Element-wise sum of two tensors of the same shape. *)
Fixpoint add_values (a b : Value) : option Value :=
  match a, b with
  | [], [] => Some []
  | x :: a', y :: b' => cons (x + y)%Q <$> add_values a' b'
  | _, _ => None
  end.

(** Modelled from the spec: the collective service's [allreduce] is the
    element-wise sum across all ranks and requires the same shape on every
    rank; a mismatch is a collective error. *)
Fixpoint allreduce_sum (vs : list Value) : option Value :=
  match vs with
  | [] => None
  | v :: vs' =>
      match vs' with
      | [] => Some v
      | _ => s ← allreduce_sum vs'; add_values v s
      end
  end.

(** Modelled from the spec: the collective service's [allgather] is the
    concatenation across ranks, in rank order, along the leading
    dimension. *)
Definition allgather_concat (vs : list Value) : Value := concat vs.

(** Modelled from the spec: the collective service's [broadcast]
    replicates the value of [root] to all ranks; every rank issues the call
    with its own tensor, and a rank that supplies another shape than the
    root, or no value at all, is a collective error. *)
Definition broadcast_from (root : nat) (vs : list Value) : option Value :=
  v ← vs !! root;
  if forallb (λ x, length x =? length v)%nat vs then Some v else None.

(** One element of [tf.div]: true division for floating types, floor
    division for integer types. *)
Definition div_element (dt : DType) (x y : Q) : Q :=
  if is_floating dt then (x / y)%Q else inject_Z (Qfloor (x / y)).

(** [tf.div(x, y)] for a scalar divisor, the only broadcasting this
    module uses; a zero divisor has no finite result. *)
Definition div_value (dt : DType) (a b : Value) : option Value :=
  match b with
  | [y] => if Qeq_bool y 0 then None else Some (map (λ x, div_element dt x y) a)
  | _ => None
  end.

(** The value of a tensor for process [me] when every process of [group]
    runs the same graph.  Variables are read as they are when the run
    starts; the module never reads and writes one variable in the same
    run.  Control inputs order the execution and carry no value. *)
Fixpoint eval (group : list Process) (me : Process) (t : Tensor)
  : option Value :=
  match t with
  | Output name _ _ => computed me !! name
  | ReadVariable v => variables (session me) !! var_name v
  | Constant c _ => Some [c]
  | Div x y =>
      a ← eval group me x;
      b ← eval group me y;
      div_value (tensor_dtype x) a b
  | Identity _ x => eval group me x
  | HorovodAllreduce x =>
      vs ← mapM (λ p, eval group p x) group;
      allreduce_sum vs
  | HorovodAllgather x =>
      vs ← mapM (λ p, eval group p x) group;
      Some (allgather_concat vs)
  | HorovodBroadcast x root =>
      vs ← mapM (λ p, eval group p x) group;
      broadcast_from root vs
  end.

(** The run-time value of a gradient. *)
Inductive GradValue :=
| DenseValue (v : Value)
| SlicesValue (values indices : Value).

Definition eval_like (group : list Process) (me : Process) (x : TensorLike)
  : option GradValue :=
  match x with
  | Dense t => DenseValue <$> eval group me t
  | IndexedSlices values indices _ =>
      v ← eval group me values;
      i ← eval group me indices;
      Some (SlicesValue v i)
  end.

Definition eval_gradient (group : list Process) (me : Process)
    (gv : GradAndVar) : option (option GradValue) :=
  match gv.1 with
  | None => Some None
  | Some x => Some <$> eval_like group me x
  end.

(** The effect of an operation on the variables of process [me]. *)
Fixpoint run_op (group : list Process) (me : Process) (op : Operation)
    (vars : gmap string Value) : option (gmap string Value) :=
  match op with
  | Assign _ ref value =>
      x ← eval group me value;
      Some (<[var_name ref := x]> vars)
  | Group _ inputs =>
      foldr (λ op k vars, vars' ← run_op group me op vars; k vars')
            Some inputs vars
  end.

Definition run_ops (group : list Process) (me : Process)
    (ops : list Operation) (vars : gmap string Value)
  : option (gmap string Value) :=
  foldr (λ op k vars, vars' ← run_op group me op vars; k vars') Some ops vars.

(** [session.run(op)] *)
Definition Session_run (group : list Process) (me : Process) (op : Operation)
  : option Session :=
  vars ← run_op group me op (variables (session me));
  Some {| variables := vars; run_calls := S (run_calls (session me)) |}.

(** [BroadcastGlobalVariablesHook.after_create_session(session, coord)] *)
Definition after_create_session (self : BroadcastGlobalVariablesHook)
    (group : list Process) (me : Process) : option Session :=
  op ← bcast_op self;
  Session_run group me op.

(** [PostStepHook.after_run(run_context, run_values)] *)
Definition after_run (self : PostStepHook) (group : list Process)
    (me : Process) : option Session :=
  if (0 <? length (grad_flip_ops self))%nat
  then Session_run group me (grad_flip_ops_group self)
  else Some (session me).

(** Running [tf.global_variables_initializer()]: every global variable
    gets the constant of its initializer, in its shape. *)
Definition initial_value (v : TfVariable) : Value :=
  replicate (num_elements (var_shape v)) (var_initializer v).

Definition initialize (g : Graph) (s : Session) : Session :=
  {| variables :=
       foldl (λ vars v, <[var_name v := initial_value v]> vars)
             (variables s) (global_variables g);
     run_calls := S (run_calls s) |}.

(** *** A training step of the whole group

    The training loop is outside this module.  What it does with the
    result of [compute_gradients] is fixed by TensorFlow: one [run] call
    evaluates the returned gradients (which the base optimizer applies)
    together with the operations collected under [UPDATE_OPS], and the
    hooks' [after_run] follows.  Every process does the same. *)
Definition processes (feeds : list (gmap string Value)) (w : list Session)
  : list Process :=
  zip_with (λ f s, {| computed := f; session := s |}) feeds w.

Definition idle (w : list Session) : list Process :=
  (λ s, {| computed := ∅; session := s |}) <$> w.

Definition train_run (grads_and_vars : list GradAndVar)
    (update_ops : list Operation) (group : list Process) (me : Process)
  : option (list (option GradValue) * Session) :=
  applied ← mapM (eval_gradient group me) grads_and_vars;
  vars ← run_ops group me update_ops (variables (session me));
  Some (applied,
        {| variables := vars; run_calls := S (run_calls (session me)) |}).

(** The [run] call of one step, on every process. *)
Definition run_train (grads_and_vars : list GradAndVar)
    (update_ops : list Operation) (feeds : list (gmap string Value))
    (w : list Session)
  : option (list (list (option GradValue) * Session)) :=
  mapM (train_run grads_and_vars update_ops (processes feeds w))
       (processes feeds w).

(** The hook's [after_run], on every process. *)
Definition run_after (hook : PostStepHook) (w : list Session)
  : option (list Session) :=
  mapM (after_run hook (idle w)) (idle w).

(** One step: the gradients each process applied, and the sessions
    after the hook. *)
Definition train_step (grads_and_vars : list GradAndVar)
    (update_ops : list Operation) (hook : PostStepHook)
    (feeds : list (gmap string Value)) (w : list Session)
  : option (list (list (option GradValue)) * list Session) :=
  results ← run_train grads_and_vars update_ops feeds w;
  w' ← run_after hook (results.*2);
  Some (results.*1, w').

(* ===================================================================== *)
(** ** Vocabulary of the properties *)

(** The sum over the ranks of element [j] of each rank's value. *)
Definition rank_sum (gs : list Value) (j : nat) : Q :=
  foldr Qplus 0%Q ((λ g, nth j g 0%Q) <$> gs).

(** The two shadow buffers [compute_gradients] creates for a gradient
    tensor in deferred mode: [grad_r], which is reduced, and [grad_c],
    which receives the local gradient. *)
Definition pending (grad : Tensor) : TfVariable :=
  {| var_name := strip_output_index (tensor_name grad) +:+ "_r";
     var_shape := tensor_shape grad;
     var_dtype := tensor_dtype grad;
     var_initializer := 0;
     var_trainable := false |}.

Definition staged (grad : Tensor) : TfVariable :=
  {| var_name := strip_output_index (tensor_name grad) +:+ "_c";
     var_shape := tensor_shape grad;
     var_dtype := tensor_dtype grad;
     var_initializer := 0;
     var_trainable := false |}.

(** The operation that stores the local gradient, and the flip. *)
Definition stage_op (graph : GraphId) (grad : Tensor) : Operation :=
  Assign graph (staged grad) grad.

Definition flip_op (graph : GraphId) (grad : Tensor) : Operation :=
  Assign graph (pending grad) (ReadVariable (staged grad)).

(** The gradient returned for [grad] in deferred mode, and the one
    returned by the immediate reduction. *)
Definition averaged (size : Z) (t : Tensor) : Tensor :=
  Div (HorovodAllreduce t) (tf_cast size (tensor_dtype t)).

Definition deferred_gradient (size : Z) (loss grad : Tensor) : Tensor :=
  Identity [loss] (averaged size (ReadVariable (pending grad))).

(** The graph after the deferred registration of one gradient. *)
Definition deferred_graph (grad : Tensor) (g : Graph) : Graph :=
  {| graph_id := graph_id g;
     var_store :=
       <[var_name (staged grad) := staged grad]>
         (<[var_name (pending grad) := pending grad]> (var_store g));
     global_variables := global_variables g ++ [pending grad; staged grad];
     collections :=
       <[GraphKeys.GRAD_FLIP_OPS :=
           default [] (collections g !! GraphKeys.GRAD_FLIP_OPS)
             ++ [flip_op (graph_id g) grad]]>
         (<[GraphKeys.UPDATE_OPS :=
              default [] (collections g !! GraphKeys.UPDATE_OPS)
                ++ [stage_op (graph_id g) grad]]>
            (collections g));
     collective_ops :=
       collective_ops g ++ [HorovodAllreduce (ReadVariable (pending grad))] |}.

(** When the two buffers of [grad] can be created in [g]. *)
Definition can_defer (g : Graph) (grad : Tensor) : Prop :=
  var_store g !! var_name (pending grad) = None ∧
  var_store g !! var_name (staged grad) = None ∧
  is_fully_defined (tensor_shape grad) = true.

(** The dense gradients of a list, in order. *)
Definition dense_gradients (gradients : list GradAndVar) : list Tensor :=
  omap (λ gv : GradAndVar,
          match gv.1 with Some (Dense t) => Some t | _ => None end)
       gradients.

(** The names of the shadow buffers a list of gradients asks for. *)
Definition shadow_names (gradients : list GradAndVar) : list string :=
  flat_map (λ t, [var_name (pending t); var_name (staged t)])
           (dense_gradients gradients).

(** When deferred mode can register a whole list: every gradient that is
    present is a dense tensor of fully defined shape, and the buffer
    names are new and pairwise distinct. *)
Definition deferrable (g : Graph) (gradients : list GradAndVar) : Prop :=
  Forall (λ gv : GradAndVar,
            match gv.1 with
            | Some (IndexedSlices _ _ _) => False
            | Some (Dense t) => is_fully_defined (tensor_shape t) = true
            | None => True
            end) gradients ∧
  NoDup (shadow_names gradients) ∧
  Forall (λ name, var_store g !! name = None) (shadow_names gradients).

(** The collective operations [compute_gradients] adds for one pair of
    its input, and for the whole list: a function of the optimizer's
    mode and of the list alone. *)
Definition reductions_of (deferred : bool) (gv : GradAndVar) : list Tensor :=
  match gv.1 with
  | None => []
  | Some (Dense t) =>
      if deferred then [HorovodAllreduce (ReadVariable (pending t))]
      else [HorovodAllreduce t]
  | Some (IndexedSlices values indices _) =>
      if deferred then []
      else [HorovodAllgather values; HorovodAllgather indices]
  end.


(** What the loop of [compute_gradients] does to one gradient. *)
Definition reduce_gradient (size : Z) (self : DistributedOptimizer)
    (loss : Tensor) (grad : TensorLike) : Build TensorLike :=
  if _deferred self then deferred_allreduce size self loss grad
  else allreduce size grad true (_device_dense self) (_device_sparse self).

(** The loop of [compute_gradients] without its accumulator. *)
Fixpoint map_gradients (f : TensorLike → Build TensorLike)
    (gradients : list GradAndVar) : Build (list GradAndVar) :=
  match gradients with
  | [] => ret []
  | (None, var) :: rest =>
      out <- map_gradients f rest ;; ret ((None, var) :: out)
  | (Some grad, var) :: rest =>
      avg_grad <- f grad ;;
      out <- map_gradients f rest ;;
      ret ((Some avg_grad, var) :: out)
  end.

(** The pair returned for an input pair in deferred mode, and the graph
    after the registration of a list of dense gradients. *)
Definition deferred_pair (size : Z) (loss : Tensor) (gv : GradAndVar)
  : GradAndVar :=
  (match gv.1 with
   | Some (Dense t) => Some (Dense (deferred_gradient size loss t))
   | other => other
   end, gv.2).

Definition registered_graph (ts : list Tensor) (g : Graph) : Graph :=
  foldl (λ g t, deferred_graph t g) g ts.

Definition is_Ok {A} (r : Result A) : Prop := ∃ a, r = Ok a.

(** The pairs of a list whose gradient is present. *)
Definition present (gradients : list GradAndVar) : list GradAndVar :=
  filter (λ gv : GradAndVar, is_Some gv.1) gradients.

(** What a construction leaves behind: the graph, or the exception. *)
Definition outcome {A} (r : Result (A * Graph)) : Result Graph :=
  match r with
  | Ok (_, g) => Ok g
  | Raise e => Raise e
  end.

(** [tf.get_collection(key)] as a function of the graph. *)
Definition collection (key : string) (g : Graph) : list Operation :=
  default [] (collections g !! key).

(** The assignment [broadcast_global_variables] builds for a variable,
    and a graph with more collective operations. *)
Definition broadcast_assign (graph : GraphId) (root_rank : nat)
    (v : TfVariable) : Operation :=
  Assign graph v (HorovodBroadcast (ReadVariable v) root_rank).

Definition add_collectives (ts : list Tensor) (g : Graph) : Graph :=
  {| graph_id := graph_id g;
     var_store := var_store g;
     global_variables := global_variables g;
     collections := collections g;
     collective_ops := collective_ops g ++ ts |}.

(** The average the collective service and [tf.div] compute from the
    values of all ranks. *)
Definition average_values (dt : DType) (size : Z) (xs : list Value)
  : option Value :=
  s ← allreduce_sum xs;
  div_value dt s [inject_Z size].

(** The local value of a gradient tensor for a process whose operations
    outside this module computed [feed]. *)
Definition local_value (feed : gmap string Value) (t : Tensor)
  : option Value :=
  match t with
  | Output name _ _ => feed !! name
  | _ => None
  end.

(** Every process holds, in the pending buffer of every gradient, a
    value of the gradient's shape. *)
Definition buffers_ready (ts : list Tensor) (w : list Session) : Prop :=
  ∀ s t, s ∈ w → t ∈ ts →
    ∃ x, variables s !! var_name (pending t) = Some x
         ∧ length x = num_elements (tensor_shape t).

(** Every process has computed, for every gradient, a local value of the
    gradient's shape. *)
Definition locals_ready (ts : list Tensor) (feeds : list (gmap string Value))
  : Prop :=
  ∀ f t, f ∈ feeds → t ∈ ts →
    ∃ x, local_value f t = Some x
         ∧ length x = num_elements (tensor_shape t).

(** A list of assignments, one per tensor of a list. *)
Definition assign_all (graph : GraphId) (target : Tensor → TfVariable)
    (value : Tensor → Tensor) (ts : list Tensor) : list Operation :=
  (λ t, Assign graph (target t) (value t)) <$> ts.

(** *** A small model used to exercise the statements: two variables,
    one loss, and a second loss over the first variable. *)
Module Example.

Definition graph : Graph :=
  {| graph_id := 1; var_store := ∅; global_variables := [];
     collections := ∅; collective_ops := [] |}.

Definition w : TfVariable :=
  {| var_name := "w"; var_shape := [Some 2%nat]; var_dtype := DT_FLOAT;
     var_initializer := 1; var_trainable := true |}.

Definition b : TfVariable :=
  {| var_name := "b"; var_shape := [Some 1%nat]; var_dtype := DT_FLOAT;
     var_initializer := 0; var_trainable := true |}.

Definition embedding : TfVariable :=
  {| var_name := "embedding"; var_shape := [Some 4%nat; Some 1%nat];
     var_dtype := DT_FLOAT; var_initializer := 0; var_trainable := true |}.

Definition model_graph : Graph :=
  {| graph_id := 1; var_store := ∅; global_variables := [w; b];
     collections := ∅; collective_ops := [] |}.

Definition other_graph : Graph :=
  {| graph_id := 2; var_store := ∅; global_variables := [w];
     collections := ∅; collective_ops := [] |}.

Definition loss : Tensor := Output "loss:0" [] DT_FLOAT.
Definition second_loss : Tensor := Output "second_loss:0" [] DT_FLOAT.

Definition w_grad : Tensor :=
  Output "gradients/w_grad:0" [Some 2%nat] DT_FLOAT.
Definition b_grad : Tensor :=
  Output "gradients/b_grad:0" [Some 1%nat] DT_FLOAT.
Definition w_grad_again : Tensor :=
  Output "gradients_1/w_grad:0" [Some 2%nat] DT_FLOAT.
Definition embedding_grad : TensorLike :=
  IndexedSlices (Output "gradients/gather_grad:0" [None; Some 1%nat] DT_FLOAT)
                (Output "gradients/gather_grad:1" [None] DT_INT64)
                None.

(** The base optimizer: dense gradients for [w] and [b], none for the
    variable the loss does not use; for the second loss, a gradient
    for [w] again, under the name TensorFlow gives to a second
    gradient computation. *)
Definition dense_base (loss : Tensor) : Build (list GradAndVar) :=
  if String.eqb (tensor_name loss) "second_loss:0"
  then ret [(Some (Dense w_grad_again), w)]
  else ret [(Some (Dense w_grad), w); (None, embedding);
            (Some (Dense b_grad), b)].

(** A base optimizer with a sparse gradient. *)
Definition sparse_base (loss : Tensor) : Build (list GradAndVar) :=
  ret [(Some (Dense w_grad), w); (Some embedding_grad, embedding);
       (None, b)].

Definition immediate : DistributedOptimizer :=
  DistributedOptimizer__init__
    {| optimizer_type := "GradientDescentOptimizer" |} None false "" "" false.

Definition deferred : DistributedOptimizer :=
  DistributedOptimizer__init__
    {| optimizer_type := "GradientDescentOptimizer" |} None false "" "" true.

Definition fresh_session : Session := {| variables := ∅; run_calls := 0 |}.

(** What the base optimizer returns for [loss], and what deferred
    mode makes of it in a group of two. *)
Definition gradients : list GradAndVar :=
  [(Some (Dense w_grad), w); (None, embedding); (Some (Dense b_grad), b)].

Definition returned : list GradAndVar :=
  deferred_pair 2 loss <$> gradients.

Definition registered : Graph :=
  registered_graph [w_grad; b_grad] graph.

Definition hook : PostStepHook :=
  {| grad_flip_ops := [flip_op 1 w_grad; flip_op 1 b_grad];
     grad_flip_ops_group := Group 1 [flip_op 1 w_grad; flip_op 1 b_grad] |}.

(** Two processes whose variables have just been initialized. *)
Definition world : list Session :=
  [initialize registered fresh_session; initialize registered fresh_session].

(** Local gradients of two processes at two consecutive steps. *)
Definition step1 : list (gmap string Value) :=
  [ {[ "gradients/w_grad:0" := [1; 2]%Q; "gradients/b_grad:0" := [5]%Q ]};
    {[ "gradients/w_grad:0" := [3; 4]%Q; "gradients/b_grad:0" := [7]%Q ]} ].

Definition step2 : list (gmap string Value) :=
  [ {[ "gradients/w_grad:0" := [10; 20]%Q; "gradients/b_grad:0" := [50]%Q ]};
    {[ "gradients/w_grad:0" := [30; 40]%Q; "gradients/b_grad:0" := [70]%Q ]} ].

End Example.


(** *** Vocabulary of the further properties *)

(** Whether a string contains a colon, and the string without its
    colons. *)
Fixpoint has_colon (s : string) : bool :=
  match s with
  | EmptyString => false
  | String c s' => Ascii.eqb c ":"%char || has_colon s'
  end.

Fixpoint without_colons (s : string) : string :=
  match s with
  | EmptyString => EmptyString
  | String c s' =>
      if Ascii.eqb c ":"%char then without_colons s'
      else String c (without_colons s')
  end.

(** The pair returned for an input pair in immediate mode. *)
Definition immediate_pair (size : Z) (gv : GradAndVar) : GradAndVar :=
  (match gv.1 with
   | Some (Dense t) => Some (Dense (averaged size t))
   | Some (IndexedSlices values indices dense_shape) =>
       Some (IndexedSlices
               (Div (HorovodAllgather values)
                    (tf_cast size (tensor_dtype values)))
               (HorovodAllgather indices) dense_shape)
   | None => None
   end, gv.2).

(** Every process holds, for every variable of a list, a value of the
    variable's shape: the state after each process has run its own
    initializer or restored its own checkpoint. *)
Definition variables_ready (vars : list TfVariable) (w : list Session)
  : Prop :=
  ∀ s v, s ∈ w → v ∈ vars →
    ∃ x, variables s !! var_name v = Some x
         ∧ length x = num_elements (var_shape v).

(** [after_create_session] on every process of the group; no tensor is
    fed during this [run] call. *)
Definition create_sessions (hook : BroadcastGlobalVariablesHook)
    (w : list Session) : option (list Session) :=
  mapM (after_create_session hook (idle w)) (idle w).

(** Inputs used to exercise the further properties. *)
Module Cases.

Definition first_output : Tensor := Output "split:0" [Some 2%nat] DT_FLOAT.
Definition second_output : Tensor := Output "split:1" [Some 2%nat] DT_FLOAT.

Definition two_outputs (loss : Tensor) : Build (list GradAndVar) :=
  ret [(Some (Dense first_output), Example.w);
       (Some (Dense second_output), Example.b)].

Definition diverged : list Session :=
  [ {| variables := {[ "w" := [1; 2]%Q; "b" := [3]%Q; "step" := [7]%Q ]};
       run_calls := 0 |};
    {| variables := {[ "w" := [5; 6]%Q; "b" := [8]%Q; "step" := [9]%Q ]};
       run_calls := 4 |} ].

(** The same group before the second process has initialized [b]. *)
Definition unready : list Session :=
  [ {| variables := {[ "w" := [1; 2]%Q; "b" := [3]%Q; "step" := [7]%Q ]};
       run_calls := 0 |};
    {| variables := {[ "w" := [5; 6]%Q; "step" := [9]%Q ]};
       run_calls := 4 |} ].

End Cases.

(* ===================================================================== *)
(** ** Properties of the collective reductions *)

Lemma add_values_nth a b s :
  add_values a b = Some s →
  length s = length a ∧ ∀ j, (nth j s 0 == nth j a 0 + nth j b 0)%Q.
Proof.
  revert b s. induction a as [|x a IH]; intros [|y b] s Hs; simplify_eq/=.
  - split; [done|]. intros [|j]; reflexivity.
  - destruct (add_values a b) as [s'|] eqn:E; simplify_eq/=.
    destruct (IH _ _ E) as [Hlen Hnth]. split; [by rewrite Hlen|].
    intros [|j]; simpl; [reflexivity|apply Hnth].
Qed.

Lemma add_values_same_length a b :
  length a = length b → is_Some (add_values a b).
Proof.
  revert b. induction a as [|x a IH]; intros [|y b] Hlen; simplify_eq/=; [done|].
  destruct (IH b Hlen) as [s ->]. done.
Qed.

Lemma allreduce_sum_spec gs n :
  gs ≠ [] → Forall (λ v, length v = n) gs →
  ∃ s, allreduce_sum gs = Some s ∧ length s = n
       ∧ ∀ j, (nth j s 0 == rank_sum gs j)%Q.
Proof.
  induction gs as [|v gs IH]; [done|]. intros _ Hall.
  apply Forall_cons in Hall as [Hv Hall].
  destruct gs as [|v' gs'].
  - exists v. split_and!; [done..|].
    intros j. unfold rank_sum. simpl. ring.
  - destruct IH as (s & Hs & Hlen & Hsum); [done..|].
    destruct (add_values_same_length v s) as [r Hr]; [congruence|].
    exists r. destruct (add_values_nth _ _ _ Hr) as [Hrl Hrn].
    split_and!.
    + change (allreduce_sum (v :: v' :: gs'))
        with (allreduce_sum (v' :: gs') ≫= add_values v).
      by rewrite Hs.
    + congruence.
    + intros j. rewrite Hrn, Hsum. reflexivity.
Qed.

Lemma inject_Z_size_nonzero (n : nat) :
  (0 < n)%nat → Qeq_bool (inject_Z (Z.of_nat n)) 0 = false.
Proof.
  intros Hn. apply not_true_iff_false. intros H%Qeq_bool_iff.
  unfold Qeq in H. simpl in H. lia.
Qed.

Lemma div_element_proper dt x x' y :
  (x == x')%Q → (div_element dt x y == div_element dt x' y)%Q.
Proof.
  intros Hx. unfold div_element. destruct (is_floating dt).
  - by rewrite Hx.
  - by rewrite Hx.
Qed.

(** [allreduce] always succeeds; on a dense tensor it adds one
    [_allreduce] and divides by the group size when averaging. *)
Lemma allreduce_dense size t average dd ds g :
  allreduce size (Dense t) average dd ds g =
  Ok (Dense (if average
             then Div (HorovodAllreduce t) (tf_cast size (tensor_dtype t))
             else HorovodAllreduce t),
      {| graph_id := graph_id g;
         var_store := var_store g;
         global_variables := global_variables g;
         collections := collections g;
         collective_ops := collective_ops g ++ [HorovodAllreduce t] |}).
Proof. by destruct average. Qed.

(** On indexed slices it adds two [allgather]s, values first. *)
Lemma allreduce_sparse size values indices dense_shape average dd ds g :
  allreduce size (IndexedSlices values indices dense_shape) average dd ds g =
  Ok (IndexedSlices
        (if average
         then Div (HorovodAllgather values)
                  (tf_cast size (tensor_dtype values))
         else HorovodAllgather values)
        (HorovodAllgather indices) dense_shape,
      {| graph_id := graph_id g;
         var_store := var_store g;
         global_variables := global_variables g;
         collections := collections g;
         collective_ops :=
           collective_ops g ++ [HorovodAllgather values;
                                HorovodAllgather indices] |}).
Proof. destruct average; cbn; by rewrite <- app_assoc. Qed.

(** C3: for a dense tensor whose value on rank i is g_i, all of one
    shape, [allreduce] yields on every process the tensor whose element j
    is (sum over i of g_i[j]) / N when [average] is true (true division
    for floating types, floor division for integer types, as [tf.div]
    does) and the plain sum when [average] is false; N is the group
    size. *)
Theorem allreduce_dense_sum_or_average
    size average dd ds t g (group : list Process) me (gs : list Value) n :
  size = Z.of_nat (length group) →
  Forall2 (λ p v, eval group p t = Some v) group gs →
  gs ≠ [] →
  Forall (λ v, length v = n) gs →
  ∃ r g' v,
    allreduce size (Dense t) average dd ds g = Ok (Dense r, g') ∧
    eval group me r = Some v ∧ length v = n ∧
    ∀ j, (j < n)%nat →
      (nth j v 0 ==
         if average
         then (if is_floating (tensor_dtype t)
               then rank_sum gs j / inject_Z size
               else inject_Z (Qfloor (rank_sum gs j / inject_Z size)))
         else rank_sum gs j)%Q.
Proof.
  intros Hsize Hlocal Hne Hshape.
  destruct (allreduce_sum_spec gs n Hne Hshape) as (s & Hs & Hlen & Hsum).
  apply mapM_Some_2 in Hlocal.
  rewrite allreduce_dense. destruct average.
  - eexists _, _, _. split; [reflexivity|]. cbn [eval tf_cast].
    rewrite Hlocal. cbn. rewrite Hs. cbn. unfold div_value.
    rewrite Hsize, inject_Z_size_nonzero; last first.
    { apply length_mapM in Hlocal. destruct gs; [done|].
      rewrite Hlocal. simpl. lia. }
    split; [reflexivity|]. split; [by rewrite length_map|].
    intros j Hj.
    rewrite (nth_indep _ 0%Q (div_element (tensor_dtype t) 0
                                (inject_Z (Z.of_nat (length group)))))
      by (rewrite length_map; lia).
    rewrite (map_nth (λ x, div_element (tensor_dtype t) x _)).
    rewrite (div_element_proper _ _ _ _ (Hsum j)).
    unfold div_element. destruct (is_floating _); reflexivity.
  - eexists _, _, _. split; [reflexivity|]. cbn [eval].
    rewrite Hlocal. cbn. rewrite Hs.
    split; [reflexivity|]. split; [done|]. intros j _. apply Hsum.
Qed.

Lemma allreduce_dense_sum_or_average_witness :
  ∃ r g' v,
    allreduce 2 (Dense (Output "g:0" [Some 2%nat] DT_FLOAT)) true "" ""
      {| graph_id := 0; var_store := ∅; global_variables := [];
         collections := ∅; collective_ops := [] |} = Ok (Dense r, g') ∧
    eval [ {| computed := {[ "g:0" := [1; 2]%Q ]};
              session := {| variables := ∅; run_calls := 0 |} |};
           {| computed := {[ "g:0" := [3; 6]%Q ]};
              session := {| variables := ∅; run_calls := 0 |} |} ]
         {| computed := ∅; session := {| variables := ∅; run_calls := 0 |} |}
         r = Some v ∧
    length v = 2%nat ∧
    ∀ j, (j < 2)%nat →
      (nth j v 0 == rank_sum [[1; 2]; [3; 6]] j / inject_Z 2)%Q.
Proof.
  apply (allreduce_dense_sum_or_average 2 true "" ""
           (Output "g:0" [Some 2%nat] DT_FLOAT) _ _ _ [[1; 2]; [3; 6]]%Q 2).
  - reflexivity.
  - repeat constructor.
  - discriminate.
  - repeat constructor.
Defined.

(** C4: for indexed slices whose values and indices on rank i are
    values_i and indices_i, [allreduce] yields indexed slices whose
    indices are the concatenation of all indices_i in rank order (repeated
    indices are kept), whose values are the concatenation of all values_i,
    each element divided by the group size when [average] is true, and
    whose dense shape is the one of the input. *)
Theorem allreduce_sparse_concatenates
    size average dd ds values indices dense_shape g
    (group : list Process) me (vals idxs : list Value) :
  size = Z.of_nat (length group) →
  group ≠ [] →
  Forall2 (λ p v, eval group p values = Some v) group vals →
  Forall2 (λ p i, eval group p indices = Some i) group idxs →
  ∃ r_values r_indices g',
    allreduce size (IndexedSlices values indices dense_shape) average dd ds g
      = Ok (IndexedSlices r_values r_indices dense_shape, g') ∧
    eval group me r_indices = Some (concat idxs) ∧
    eval group me r_values =
      Some (concat
              (if average
               then map (map (λ x,
                          if is_floating (tensor_dtype values)
                          then (x / inject_Z size)%Q
                          else inject_Z (Qfloor (x / inject_Z size)))) vals
               else vals)).
Proof.
  intros Hsize Hne Hvals Hidxs.
  apply mapM_Some_2 in Hvals. apply mapM_Some_2 in Hidxs.
  rewrite allreduce_sparse. eexists _, _, _. split; [reflexivity|].
  split.
  { cbn [eval]. by rewrite Hidxs. }
  destruct average; cbn [eval tf_cast]; rewrite Hvals; cbn; [|done].
  unfold div_value.
  rewrite Hsize, inject_Z_size_nonzero by (destruct group; [done|simpl; lia]).
  by rewrite concat_map.
Qed.

Lemma allreduce_sparse_concatenates_witness :
  ∃ r_values r_indices g',
    allreduce 2
      (IndexedSlices (Output "v:0" [None; Some 1%nat] DT_FLOAT)
                     (Output "i:0" [None] DT_INT64) None) true "" ""
      {| graph_id := 0; var_store := ∅; global_variables := [];
         collections := ∅; collective_ops := [] |}
      = Ok (IndexedSlices r_values r_indices None, g') ∧
    eval [ {| computed := {[ "v:0" := [2; 4]%Q; "i:0" := [0; 3]%Q ]};
              session := {| variables := ∅; run_calls := 0 |} |};
           {| computed := {[ "v:0" := [6]%Q; "i:0" := [3]%Q ]};
              session := {| variables := ∅; run_calls := 0 |} |} ]
         {| computed := ∅; session := {| variables := ∅; run_calls := 0 |} |}
         r_indices = Some (concat [[0; 3]; [3]]%Q) ∧
    eval [ {| computed := {[ "v:0" := [2; 4]%Q; "i:0" := [0; 3]%Q ]};
              session := {| variables := ∅; run_calls := 0 |} |};
           {| computed := {[ "v:0" := [6]%Q; "i:0" := [3]%Q ]};
              session := {| variables := ∅; run_calls := 0 |} |} ]
         {| computed := ∅; session := {| variables := ∅; run_calls := 0 |} |}
         r_values =
      Some (concat (map (map (λ x, (x / inject_Z 2)%Q)) [[2; 4]; [6]]%Q)).
Proof.
  apply (allreduce_sparse_concatenates 2 true "" ""
           (Output "v:0" [None; Some 1%nat] DT_FLOAT)
           (Output "i:0" [None] DT_INT64) None _ _ _
           [[2; 4]; [6]]%Q [[0; 3]; [3]]%Q).
  - reflexivity.
  - discriminate.
  - repeat constructor.
  - repeat constructor.
Defined.

(* ===================================================================== *)
(** ** [compute_gradients] *)

(** C2: with a group of size 1, [compute_gradients] is the base
    optimizer's [compute_gradients]: the same list, whatever its
    gradients are (dense, indexed slices or [None]), and the same graph,
    so no collective operation is added. *)
Theorem compute_gradients_single_process base self loss g :
  compute_gradients 1 base self loss g = base loss g.
Proof.
  unfold compute_gradients, bind. destruct (base loss g) as [[gradients g1]|e]; done.
Qed.

(** *** Names of the shadow buffers *)

Lemma list_ascii_of_string_append s t :
  list_ascii_of_string (s +:+ t)
  = list_ascii_of_string s ++ list_ascii_of_string t.
Proof. induction s as [|c s IH]; simpl; [done|]. by rewrite IH. Qed.

Lemma append_suffix_inj s s' t t' :
  String.length t = String.length t' →
  s +:+ t = s' +:+ t' → s = s' ∧ t = t'.
Proof.
  intros Hlen Heq.
  apply (f_equal list_ascii_of_string) in Heq.
  rewrite !list_ascii_of_string_append in Heq.
  apply app_inj_2 in Heq as [H1 H2].
  - split.
    + by rewrite <- (string_of_list_ascii_of_string s), H1,
        string_of_list_ascii_of_string.
    + by rewrite <- (string_of_list_ascii_of_string t), H2,
        string_of_list_ascii_of_string.
  - revert Hlen. clear. revert t'.
    induction t as [|c t IH]; intros [|c' t']; simpl; try done.
    intros [=]. f_equal. by apply IH.
Qed.

Lemma pending_staged_ne t t' : var_name (pending t) ≠ var_name (staged t').
Proof. intros [_ [=]]%append_suffix_inj; done. Qed.

Lemma pending_name_inj t t' :
  var_name (pending t) = var_name (pending t') →
  strip_output_index (tensor_name t) = strip_output_index (tensor_name t').
Proof. by intros [? _]%append_suffix_inj. Qed.

Lemma staged_name_inj t t' :
  var_name (staged t) = var_name (staged t') →
  strip_output_index (tensor_name t) = strip_output_index (tensor_name t').
Proof. by intros [? _]%append_suffix_inj. Qed.

Lemma collection_keys_ne : GraphKeys.UPDATE_OPS ≠ GraphKeys.GRAD_FLIP_OPS.
Proof. done. Qed.

(** *** The loop and its body *)

Lemma for_each_map_gradients size self loss gradients acc g :
  for_each
    (λ averaged_gradients '(grad, var),
       match grad with
       | Some grad =>
           avg_grad <-
             (if _deferred self then deferred_allreduce size self loss grad
              else allreduce size grad true
                     (_device_dense self) (_device_sparse self)) ;;
           ret (averaged_gradients ++ [(Some avg_grad, var)])
       | None => ret (averaged_gradients ++ [(None, var)])
       end)
    gradients acc g
  = match map_gradients (reduce_gradient size self loss) gradients g with
    | Ok (out, g') => Ok (acc ++ out, g')
    | Raise e => Raise e
    end.
Proof.
  revert acc g. induction gradients as [|[[grad|] var] rest IH]; intros acc g.
  - cbn. by rewrite app_nil_r.
  - cbn [for_each map_gradients]. unfold bind at 1 2 4. unfold reduce_gradient.
    destruct (if _deferred self then _ else _) as [[avg g1]|e]; [|done].
    cbn [ret]. rewrite IH. unfold bind.
    destruct (map_gradients _ rest g1) as [[out g2]|e]; [|done].
    cbn. by rewrite <- app_assoc.
  - cbn [for_each map_gradients]. unfold bind at 1 3. cbn [ret].
    rewrite IH. unfold bind.
    destruct (map_gradients _ rest g) as [[out g2]|e]; [|done].
    cbn. by rewrite <- app_assoc.
Qed.

Lemma allreduce_gradients_map size self loss gradients g :
  allreduce_gradients size self loss gradients g
  = map_gradients (reduce_gradient size self loss) gradients g.
Proof.
  unfold allreduce_gradients. rewrite for_each_map_gradients.
  by destruct (map_gradients _ _ _) as [[??]|?].
Qed.

Lemma deferred_allreduce_dense size self loss t g :
  can_defer g t →
  deferred_allreduce size self loss (Dense t) g
  = Ok (Dense (deferred_gradient size loss t), deferred_graph t g).
Proof.
  intros (Hr & Hc & Hshape).
  unfold deferred_allreduce, bind at 1. unfold tf_get_variable at 1.
  change (strip_output_index (tensor_name t) +:+ "_r")
    with (var_name (pending t)).
  change (strip_output_index (tensor_name t) +:+ "_c")
    with (var_name (staged t)).
  rewrite Hr, Hshape. unfold bind at 1, tf_get_variable.
  cbn [var_store]. rewrite lookup_insert_ne by apply pending_staged_ne.
  rewrite Hc, Hshape. unfold bind at 1. rewrite allreduce_dense.
  cbn. unfold ret, deferred_graph, deferred_gradient, averaged.
  do 2 f_equal. unfold pending, staged, stage_op, flip_op. f_equal.
  - by rewrite <- app_assoc.
  - by rewrite lookup_insert_ne by apply collection_keys_ne.
Qed.

Lemma deferred_allreduce_raises size self loss x g :
  (∀ t, x = Dense t → ¬ can_defer g t) →
  ∃ e, deferred_allreduce size self loss x g = Raise e.
Proof.
  intros Hno. destruct x as [t|v i s]; [|by eexists].
  specialize (Hno t eq_refl).
  unfold deferred_allreduce, bind at 1. unfold tf_get_variable at 1.
  change (strip_output_index (tensor_name t) +:+ "_r")
    with (var_name (pending t)).
  change (strip_output_index (tensor_name t) +:+ "_c")
    with (var_name (staged t)).
  destruct (var_store g !! var_name (pending t)) eqn:Hr; [by eexists|].
  destruct (is_fully_defined (tensor_shape t)) eqn:Hshape; [|by eexists].
  unfold bind at 1, tf_get_variable. cbn [var_store].
  rewrite lookup_insert_ne by apply pending_staged_ne.
  destruct (var_store g !! var_name (staged t)) eqn:Hc; [by eexists|].
  destruct Hno. done.
Qed.

Lemma deferred_allreduce_inv size self loss x g y g' :
  deferred_allreduce size self loss x g = Ok (y, g') →
  ∃ t, x = Dense t ∧ can_defer g t
       ∧ y = Dense (deferred_gradient size loss t) ∧ g' = deferred_graph t g.
Proof.
  intros Hok. destruct x as [t|v i s]; [|done].
  destruct (var_store g !! var_name (pending t)) eqn:Hr;
    [|destruct (var_store g !! var_name (staged t)) eqn:Hc;
      [|destruct (is_fully_defined (tensor_shape t)) eqn:Hshape]].
  3: { rewrite deferred_allreduce_dense in Hok by done.
       simplify_eq. by exists t. }
  all: destruct (deferred_allreduce_raises size self loss (Dense t) g)
         as [e He]; [|congruence].
  all: intros ? [= <-] (? & ? & ?); congruence.
Qed.


(** Whatever is done to the gradients that are present, the loop keeps
    the length of the list, the variables and the absent gradients. *)
Lemma map_gradients_shape f gradients g out g' :
  map_gradients f gradients g = Ok (out, g') →
  out.*2 = gradients.*2 ∧
  ∀ i var, gradients !! i = Some (None, var) → out !! i = Some (None, var).
Proof.
  revert g out. induction gradients as [|[[grad|] var] rest IH]; intros g out.
  - intros [= <- <-]. done.
  - cbn [map_gradients]. unfold bind at 1.
    destruct (f grad g) as [[avg g1]|e]; [|done]. unfold bind.
    destruct (map_gradients f rest g1) as [[out' g2]|e] eqn:Hrest; [|done].
    intros [= <- <-]. destruct (IH _ _ Hrest) as [Hvars Habsent].
    split; [by rewrite !fmap_cons, Hvars|].
    intros [|i] var'; [done|]. apply Habsent.
  - cbn [map_gradients]. unfold bind.
    destruct (map_gradients f rest g) as [[out' g2]|e] eqn:Hrest; [|done].
    intros [= <- <-]. destruct (IH _ _ Hrest) as [Hvars Habsent].
    split; [by rewrite !fmap_cons, Hvars|].
    intros [|i] var'; [by intros [= <-]|]. apply Habsent.
Qed.



(** *** Deferred mode: when the registration succeeds *)

Lemma deferrable_absent g var rest :
  deferrable g ((None, var) :: rest) ↔ deferrable g rest.
Proof.
  unfold deferrable. rewrite Forall_cons. cbn. tauto.
Qed.

Lemma deferrable_sparse g v i s var rest :
  ¬ deferrable g ((Some (IndexedSlices v i s), var) :: rest).
Proof. intros [[[] _]%Forall_cons _]. Qed.

Lemma deferrable_dense g t var rest :
  deferrable g ((Some (Dense t), var) :: rest)
  ↔ can_defer g t ∧ deferrable (deferred_graph t g) rest.
Proof.
  unfold deferrable, can_defer.
  change (shadow_names ((Some (Dense t), var) :: rest))
    with (var_name (pending t) :: var_name (staged t) :: shadow_names rest).
  rewrite Forall_cons, !NoDup_cons, !Forall_cons, !not_elem_of_cons.
  cbn [fst deferred_graph var_store].
  assert (Forall (λ name,
            (<[var_name (staged t) := staged t]>
               (<[var_name (pending t) := pending t]> (var_store g)))
              !! name = None) (shadow_names rest)
          ↔ (var_name (pending t) ∉ shadow_names rest)
            ∧ (var_name (staged t) ∉ shadow_names rest)
            ∧ Forall (λ name, var_store g !! name = None) (shadow_names rest))
    as ->.
  { rewrite !Forall_forall. split.
    - intros H. split_and!.
      + intros Hin. apply H in Hin.
        apply lookup_insert_None in Hin as [Hin _].
        by apply lookup_insert_None in Hin as [_ ?].
      + intros Hin. apply H in Hin.
        by apply lookup_insert_None in Hin as [_ ?].
      + intros n Hin. apply H in Hin.
        apply lookup_insert_None in Hin as [Hin _].
        by apply lookup_insert_None in Hin as [? _].
    - intros (Hr & Hc & H) n Hin.
      rewrite !lookup_insert_None. split_and!; [by apply H|..];
        intros <-; done. }
  pose proof (pending_staged_ne t t). tauto.
Qed.

Lemma map_gradients_deferred size self loss gradients g :
  _deferred self = true →
  (deferrable g gradients →
   map_gradients (reduce_gradient size self loss) gradients g
   = Ok (deferred_pair size loss <$> gradients,
         registered_graph (dense_gradients gradients) g)) ∧
  (is_Ok (map_gradients (reduce_gradient size self loss) gradients g) →
   deferrable g gradients).
Proof.
  intros Hmode. revert g.
  induction gradients as [|[[[t|v i s]|] var] rest IH]; intros g.
  - split; [done|]. intros _. unfold deferrable. cbn.
    split_and!; constructor.
  - rewrite deferrable_dense. cbn [map_gradients]. unfold bind at 1 3.
    assert (reduce_gradient size self loss (Dense t) g
            = deferred_allreduce size self loss (Dense t) g) as ->
      by (unfold reduce_gradient; by rewrite Hmode).
    split.
    + intros [Hcan Hrest]. rewrite deferred_allreduce_dense by done.
      unfold bind. rewrite (proj1 (IH _) Hrest). done.
    + intros [[out g'] Hok].
      destruct (deferred_allreduce _ _ _ _ g) as [[y g1]|e] eqn:Hone; [|done].
      apply deferred_allreduce_inv in Hone as (t' & [= <-] & Hcan & -> & ->).
      split; [done|]. apply IH. unfold bind in Hok.
      destruct (map_gradients _ rest _) as [[out' g2]|e]; [|done].
      by eexists.
  - split; [by intros ?%deferrable_sparse|].
    intros [[out g'] Hok]. cbn [map_gradients] in Hok. unfold bind at 1 in Hok.
    assert (reduce_gradient size self loss (IndexedSlices v i s) g
            = deferred_allreduce size self loss (IndexedSlices v i s) g)
      as Heq by (unfold reduce_gradient; by rewrite Hmode).
    rewrite Heq in Hok. done.
  - rewrite deferrable_absent. cbn [map_gradients]. unfold bind. split.
    + intros Hrest. rewrite (proj1 (IH _) Hrest). done.
    + intros [[out g'] Hok]. apply IH.
      destruct (map_gradients _ rest _) as [[out' g2]|e]; [|done].
      by eexists.
Qed.

(** *** Order and pairing *)



Lemma map_gradients_present f gradients g :
  outcome (map_gradients f gradients g)
  = outcome (map_gradients f (present gradients) g).
Proof.
  revert g. induction gradients as [|[[grad|] var] rest IH]; intros g.
  - done.
  - unfold present. rewrite filter_cons_True by (cbn; eauto).
    cbn [map_gradients]. unfold bind at 1 3.
    destruct (f grad g) as [[avg g1]|e]; [|done]. unfold bind.
    specialize (IH g1). unfold present in IH.
    destruct (map_gradients f rest g1) as [[??]|?],
             (map_gradients f (filter _ rest) g1) as [[??]|?];
      cbn in *; congruence.
  - unfold present. rewrite filter_cons_False by (cbn; by intros [??]).
    cbn [map_gradients]. unfold bind.
    specialize (IH g). unfold present in IH.
    destruct (map_gradients f rest g) as [[??]|?]; cbn in *; congruence.
Qed.

(** C6: a pair whose gradient is [None] comes back as it is, at its
    position, and plays no part in what [compute_gradients] does to the
    graph nor in whether it raises: the graph built and the exception, if
    any, are those obtained for the list without its absent pairs.  This
    holds at every group size and in both modes. *)
Theorem compute_gradients_absent size base self loss g gradients g1 :
  base loss g = Ok (gradients, g1) →
  (∀ out g', compute_gradients size base self loss g = Ok (out, g') →
     ∀ i var, gradients !! i = Some (None, var) →
              out !! i = Some (None, var)) ∧
  outcome (compute_gradients size base self loss g)
  = outcome (compute_gradients size (λ _, ret (present gradients))
               self loss g1).
Proof.
  intros Hbase. unfold compute_gradients, bind. rewrite Hbase. cbn [ret].
  destruct (1 <? size)%Z.
  - rewrite !allreduce_gradients_map. split.
    + intros out g' Hok. by eapply map_gradients_shape.
    + apply map_gradients_present.
  - split; [|done]. by intros out g' [= <- <-].
Qed.

Lemma compute_gradients_absent_witness :
  ∃ out g',
    compute_gradients 2 Example.dense_base Example.deferred Example.loss
      Example.graph = Ok (out, g') ∧
    out !! 1%nat = Some (None, Example.embedding) ∧
    outcome (compute_gradients 2
               (λ _, ret [(Some (Dense Example.w_grad), Example.w);
                          (Some (Dense Example.b_grad), Example.b)])
               Example.deferred Example.loss Example.graph) = Ok g'.
Proof.
  destruct (compute_gradients_absent 2 Example.dense_base Example.deferred
              Example.loss Example.graph _ _ eq_refl) as [Hkeep Hframe].
  destruct (compute_gradients 2 Example.dense_base Example.deferred
              Example.loss Example.graph) as [[out g']|e] eqn:Hok;
    [|vm_compute in Hok; discriminate].
  exists out, g'. split; [reflexivity|].
  split; [exact (Hkeep out g' eq_refl 1%nat Example.embedding eq_refl)|].
  symmetry. exact Hframe.
Defined.

(** *** What deferred mode registers *)

Lemma registered_graph_id ts g :
  graph_id (registered_graph ts g) = graph_id g.
Proof.
  revert g. induction ts as [|t ts IH]; intros g; [done|].
  cbn [registered_graph foldl]. fold (registered_graph ts (deferred_graph t g)).
  by rewrite IH.
Qed.

Lemma registered_graph_flips ts g :
  collection GraphKeys.GRAD_FLIP_OPS (registered_graph ts g)
  = collection GraphKeys.GRAD_FLIP_OPS g ++ (flip_op (graph_id g) <$> ts).
Proof.
  revert g. induction ts as [|t ts IH]; intros g.
  - by rewrite app_nil_r.
  - cbn [registered_graph foldl]. fold (registered_graph ts (deferred_graph t g)).
    rewrite IH. unfold collection at 1. cbn [deferred_graph collections graph_id].
    rewrite lookup_insert_eq. cbn. by rewrite <- app_assoc.
Qed.

Lemma registered_graph_updates ts g :
  collection GraphKeys.UPDATE_OPS (registered_graph ts g)
  = collection GraphKeys.UPDATE_OPS g ++ (stage_op (graph_id g) <$> ts).
Proof.
  revert g. induction ts as [|t ts IH]; intros g.
  - by rewrite app_nil_r.
  - cbn [registered_graph foldl]. fold (registered_graph ts (deferred_graph t g)).
    rewrite IH. unfold collection at 1. cbn [deferred_graph collections graph_id].
    rewrite lookup_insert_ne by (symmetry; apply collection_keys_ne).
    rewrite lookup_insert_eq. cbn. by rewrite <- app_assoc.
Qed.

Lemma registered_graph_variables ts g :
  global_variables (registered_graph ts g)
  = global_variables g ++ flat_map (λ t, [pending t; staged t]) ts.
Proof.
  revert g. induction ts as [|t ts IH]; intros g.
  - by rewrite app_nil_r.
  - cbn [registered_graph foldl]. fold (registered_graph ts (deferred_graph t g)).
    rewrite IH. cbn. by rewrite <- app_assoc.
Qed.

(** [compute_gradients] in deferred mode, in a group of more than one
    process, once the base optimizer has returned. *)
Lemma compute_gradients_deferred size base self loss g gradients g1 :
  (1 < size)%Z → _deferred self = true →
  base loss g = Ok (gradients, g1) →
  (deferrable g1 gradients →
   compute_gradients size base self loss g
   = Ok (deferred_pair size loss <$> gradients,
         registered_graph (dense_gradients gradients) g1)) ∧
  (is_Ok (compute_gradients size base self loss g) →
   deferrable g1 gradients).
Proof.
  intros Hsize%Z.ltb_lt Hmode Hbase. unfold compute_gradients, bind.
  rewrite Hbase, Hsize, allreduce_gradients_map.
  by apply map_gradients_deferred.
Qed.

(** The exception of the loop body in deferred mode. *)
Lemma deferred_allreduce_exception size self loss x g e :
  deferred_allreduce size self loss x g = Raise e →
  match x with
  | IndexedSlices _ _ _ => ∃ msg, e = AttributeError msg
  | Dense t => ¬ can_defer g t ∧ ∃ msg, e = ValueError msg
  end.
Proof.
  destruct x as [t|v i s]; [|intros [= <-]; by eexists].
  intros Hraise. split.
  - intros Hcan. by rewrite deferred_allreduce_dense in Hraise.
  - destruct (var_store g !! var_name (pending t)) eqn:Hr;
      [|destruct (is_fully_defined (tensor_shape t)) eqn:Hshape;
        [destruct (var_store g !! var_name (staged t)) eqn:Hc|]].
    3: by rewrite deferred_allreduce_dense in Hraise.
    all: unfold deferred_allreduce, bind at 1 in Hraise.
    all: unfold tf_get_variable at 1 in Hraise.
    all: change (strip_output_index (tensor_name t) +:+ "_r")
           with (var_name (pending t)) in Hraise.
    all: change (strip_output_index (tensor_name t) +:+ "_c")
           with (var_name (staged t)) in Hraise.
    all: rewrite Hr in Hraise.
    + injection Hraise as <-. by eexists.
    + rewrite Hshape in Hraise. unfold bind at 1, tf_get_variable in Hraise.
      cbn [var_store] in Hraise.
      rewrite lookup_insert_ne in Hraise by apply pending_staged_ne.
      rewrite Hc in Hraise. injection Hraise as <-. by eexists.
    + rewrite Hshape in Hraise. injection Hraise as <-. by eexists.
Qed.

(** When the loop raises in deferred mode: at the first gradient that
    cannot be registered, after the registration of those before it. *)
Lemma map_gradients_deferred_raise size self loss gradients g e :
  _deferred self = true →
  map_gradients (reduce_gradient size self loss) gradients g = Raise e →
  ∃ pre x var post,
    gradients = pre ++ (Some x, var) :: post ∧
    deferrable g pre ∧
    match x with
    | IndexedSlices _ _ _ => ∃ msg, e = AttributeError msg
    | Dense t =>
        ¬ can_defer (registered_graph (dense_gradients pre) g) t
        ∧ ∃ msg, e = ValueError msg
    end.
Proof.
  intros Hmode. revert g.
  induction gradients as [|[[x|] var] rest IH]; intros g; [done|..].
  - cbn [map_gradients]. unfold bind at 1.
    assert (reduce_gradient size self loss x g
            = deferred_allreduce size self loss x g) as ->
      by (unfold reduce_gradient; by rewrite Hmode).
    destruct (deferred_allreduce size self loss x g)
      as [[y g1]|e'] eqn:Hone.
    + apply deferred_allreduce_inv in Hone as (t & -> & Hcan & -> & ->).
      unfold bind.
      destruct (map_gradients _ rest _) as [[out g2]|e'] eqn:Hrest; [done|].
      intros [= ->].
      destruct (IH _ Hrest) as (pre & x & var' & post & -> & Hpre & Hx).
      exists ((Some (Dense t), var) :: pre), x, var', post.
      split; [done|]. split; [by apply deferrable_dense|]. exact Hx.
    + intros [= ->]. exists [], x, var, rest. split; [done|].
      split; [unfold deferrable; cbn; split_and!; constructor|].
      by apply deferred_allreduce_exception in Hone.
  - cbn [map_gradients]. unfold bind.
    destruct (map_gradients _ rest g) as [[out g2]|e'] eqn:Hrest; [done|].
    intros [= ->].
    destruct (IH _ Hrest) as (pre & x & var' & post & -> & Hpre & Hx).
    exists ((None, var) :: pre), x, var', post.
    split; [done|]. split; [by apply deferrable_absent|]. exact Hx.
Qed.

(** C8, as the code has it, once the base optimizer has returned its
    list in deferred mode.  In a group of one process nothing is
    registered and nothing is raised: the list comes back as it is.  In a
    group of more than one process:

    - [compute_gradients] returns exactly when every gradient that is
      present is a dense tensor of fully defined shape and the buffer
      names, which are derived from the names of the gradient tensors, are
      not yet in the variable store and pairwise distinct;
    - it then registers one flip per present gradient, in list order,
      after the flips the collection already holds: the variable a
      gradient is paired with plays no part, and nothing records that a
      variable already has a flip;
    - otherwise it raises at the first gradient of the list that cannot
      be registered, those before it being registered: [AttributeError]
      if that gradient is a [tf.IndexedSlices], the [ValueError] of
      [tf.get_variable] if it is a dense tensor whose shape is not fully
      defined or one of whose two buffer names exists already. *)
Theorem deferred_registration size base self loss g gradients g1 :
  _deferred self = true →
  base loss g = Ok (gradients, g1) →
  ((size ≤ 1)%Z →
   compute_gradients size base self loss g = Ok (gradients, g1)) ∧
  ((1 < size)%Z →
   (is_Ok (compute_gradients size base self loss g)
    ↔ deferrable g1 gradients) ∧
   (∀ out g', compute_gradients size base self loss g = Ok (out, g') →
      collection GraphKeys.GRAD_FLIP_OPS g'
      = collection GraphKeys.GRAD_FLIP_OPS g1
        ++ (flip_op (graph_id g1) <$> dense_gradients gradients)) ∧
   (∀ e, compute_gradients size base self loss g = Raise e →
      ∃ pre x var post,
        gradients = pre ++ (Some x, var) :: post ∧
        deferrable g1 pre ∧
        match x with
        | IndexedSlices _ _ _ => ∃ msg, e = AttributeError msg
        | Dense t =>
            ¬ can_defer (registered_graph (dense_gradients pre) g1) t
            ∧ ∃ msg, e = ValueError msg
        end)).
Proof.
  intros Hmode Hbase. split.
  - intros Hsize%Z.ltb_ge. unfold compute_gradients, bind.
    by rewrite Hbase, Hsize.
  - intros Hsize.
    destruct (compute_gradients_deferred _ _ _ _ _ _ _ Hsize Hmode Hbase)
      as [Hok Hinv].
    split; [split; [done|]|split].
    + intros Hcan. rewrite (Hok Hcan). by eexists.
    + intros out g' Hres.
      assert (deferrable g1 gradients) as Hcan by (apply Hinv; by eexists).
      rewrite (Hok Hcan) in Hres. injection Hres as _ <-.
      apply registered_graph_flips.
    + intros e. apply Z.ltb_lt in Hsize. unfold compute_gradients, bind.
      rewrite Hbase, Hsize, allreduce_gradients_map.
      by apply map_gradients_deferred_raise.
Qed.

Lemma example_deferrable :
  deferrable Example.graph
    [(Some (Dense Example.w_grad), Example.w); (None, Example.embedding);
     (Some (Dense Example.b_grad), Example.b)].
Proof.
  split_and!.
  - repeat constructor.
  - apply (bool_decide_unpack _). vm_compute. exact I.
  - repeat constructor.
Defined.

Lemma deferred_registration_witness :
  ∃ out g',
    compute_gradients 2 Example.dense_base Example.deferred Example.loss
      Example.graph = Ok (out, g') ∧
    collection GraphKeys.GRAD_FLIP_OPS g'
    = [flip_op 1 Example.w_grad; flip_op 1 Example.b_grad].
Proof.
  destruct (deferred_registration 2 Example.dense_base Example.deferred
              Example.loss Example.graph _ _ eq_refl eq_refl)
    as [_ Hmany].
  destruct (Hmany eq_refl) as (Hiff & Hflips & _).
  destruct (proj2 Hiff example_deferrable) as [[out g'] Hok].
  exists out, g'. split; [exact Hok|]. exact (Hflips out g' Hok).
Defined.

(** C8 as stated does not hold: one optimizer, two losses over the same
    variable [w].  The second call registers a second flip for [w] and
    raises nothing, because the second gradient tensor has another
    name. *)
Lemma second_flip_for_one_variable_is_accepted :
  ∃ out1 g1 out2 g2,
    compute_gradients 2 Example.dense_base Example.deferred Example.loss
      Example.graph = Ok (out1, g1) ∧
    compute_gradients 2 Example.dense_base Example.deferred
      Example.second_loss g1 = Ok (out2, g2) ∧
    out1.*2 = [Example.w; Example.embedding; Example.b] ∧
    out2.*2 = [Example.w] ∧
    collection GraphKeys.GRAD_FLIP_OPS g2
    = [flip_op 1 Example.w_grad; flip_op 1 Example.b_grad;
       flip_op 1 Example.w_grad_again].
Proof.
  eexists _, _, _, _. split_and!.
  - vm_compute. reflexivity.
  - vm_compute. reflexivity.
  - reflexivity.
  - reflexivity.
  - vm_compute. reflexivity.
Qed.

(* ===================================================================== *)
(** ** The hooks *)

(** C7: [after_run] of a hook built over a graph with no registered flip
    leaves the session as it is, its count of [run] calls included; with
    at least one registered flip it makes exactly one [run] call, which
    executes every registered flip. *)
Theorem after_run_flips g group me :
  ∃ hook,
    PostStepHook__init__ g = Ok (hook, g) ∧
    grad_flip_ops hook = collection GraphKeys.GRAD_FLIP_OPS g ∧
    after_run hook group me =
      match collection GraphKeys.GRAD_FLIP_OPS g with
      | [] => Some (session me)
      | flips =>
          vars ← run_ops group me flips (variables (session me));
          Some {| variables := vars;
                  run_calls := S (run_calls (session me)) |}
      end.
Proof.
  eexists. split; [reflexivity|]. split; [reflexivity|].
  unfold after_run. cbn [grad_flip_ops grad_flip_ops_group].
  fold (collection GraphKeys.GRAD_FLIP_OPS g).
  destruct (collection GraphKeys.GRAD_FLIP_OPS g); reflexivity.
Qed.

Lemma add_collectives_nil g : add_collectives [] g = g.
Proof. destruct g. unfold add_collectives. cbn. by rewrite app_nil_r. Qed.

Lemma for_each_broadcast root vars acc g :
  for_each
    (λ assigns var,
       value <- broadcast (ReadVariable var) root ;;
       op <- tf_assign var value ;;
       ret (assigns ++ [op]))
    vars acc g
  = Ok (acc ++ (broadcast_assign (graph_id g) root <$> vars),
        add_collectives
          ((λ v, HorovodBroadcast (ReadVariable v) root) <$> vars) g).
Proof.
  revert acc g. induction vars as [|v vars IH]; intros acc g.
  - cbn. by rewrite app_nil_r, add_collectives_nil.
  - cbn [for_each]. unfold bind at 1. cbn. rewrite IH. cbn.
    unfold add_collectives. cbn. by rewrite <- !app_assoc.
Qed.

(** [broadcast_global_variables] never fails: one broadcast and one
    assignment per global variable, grouped into one operation of the
    default graph. *)
Lemma broadcast_global_variables_spec root g :
  broadcast_global_variables root g
  = Ok (Group (graph_id g)
          (broadcast_assign (graph_id g) root <$> global_variables g),
        add_collectives
          ((λ v, HorovodBroadcast (ReadVariable v) root)
             <$> global_variables g) g).
Proof.
  unfold broadcast_global_variables. unfold bind at 1.
  unfold tf_global_variables. unfold bind at 1.
  by rewrite for_each_broadcast.
Qed.

(** C9: [begin] builds the batched broadcast when the hook holds none or
    holds one of another graph; calling [begin] again under the same
    default graph changes neither the hook nor the graph (no broadcast is
    added), and calling it under a different default graph builds the
    batched broadcast of that graph and stores it in place of the old
    one. *)
Theorem begin_caches_per_graph self g :
  ∃ self1 g1,
    begin self g = Ok (self1, g1) ∧
    graph_id g1 = graph_id g ∧
    begin self1 g1 = Ok (self1, g1) ∧
    ∀ g2, graph_id g2 ≠ graph_id g1 →
      ∃ op g2',
        broadcast_global_variables (root_rank self) g2 = Ok (op, g2') ∧
        op_graph op = graph_id g2 ∧
        begin self1 g2
        = Ok ({| root_rank := root_rank self; bcast_op := Some op;
                 device := device self |}, g2').
Proof.
  assert (∀ s g0 op, bcast_op s = Some op → op_graph op = graph_id g0 →
            begin s g0 = Ok (s, g0)) as Hkeep.
  { intros s g0 op Hop Hsame. unfold begin, bind. cbn [tf_get_default_graph].
    rewrite Hop, Hsame, Nat.eqb_refl. done. }
  assert (∀ s g0 op, bcast_op s = Some op → op_graph op ≠ graph_id g0 →
            begin s g0
            = Ok ({| root_rank := root_rank s;
                     bcast_op := Some (Group (graph_id g0)
                       (broadcast_assign (graph_id g0) (root_rank s)
                          <$> global_variables g0));
                     device := device s |},
                  add_collectives
                    ((λ v, HorovodBroadcast (ReadVariable v) (root_rank s))
                       <$> global_variables g0) g0)) as Hrebuild.
  { intros s g0 op Hop Hother. unfold begin, bind at 1.
    cbn [tf_get_default_graph]. rewrite Hop.
    apply Nat.eqb_neq in Hother. rewrite Hother. cbn [negb]. unfold bind.
    by rewrite broadcast_global_variables_spec. }
  assert (∀ s g0, bcast_op s = None →
            begin s g0
            = Ok ({| root_rank := root_rank s;
                     bcast_op := Some (Group (graph_id g0)
                       (broadcast_assign (graph_id g0) (root_rank s)
                          <$> global_variables g0));
                     device := device s |},
                  add_collectives
                    ((λ v, HorovodBroadcast (ReadVariable v) (root_rank s))
                       <$> global_variables g0) g0)) as Hfirst.
  { intros s g0 Hnone. unfold begin, bind at 1.
    cbn [tf_get_default_graph]. rewrite Hnone. unfold bind.
    by rewrite broadcast_global_variables_spec. }
  assert (∀ s1 g1 op1, bcast_op s1 = Some op1 → op_graph op1 = graph_id g1 →
            root_rank s1 = root_rank self → device s1 = device self →
            ∀ g2, graph_id g2 ≠ graph_id g1 →
              ∃ op g2',
                broadcast_global_variables (root_rank self) g2 = Ok (op, g2') ∧
                op_graph op = graph_id g2 ∧
                begin s1 g2
                = Ok ({| root_rank := root_rank self; bcast_op := Some op;
                         device := device self |}, g2')) as Hother.
  { intros s1 g1 op1 Hop Hg Hroot Hdev g2 Hne.
    eexists _, _. split; [apply broadcast_global_variables_spec|].
    split; [done|].
    rewrite (Hrebuild s1 g2 op1 Hop) by congruence.
    by rewrite Hroot, Hdev. }
  destruct (bcast_op self) as [op|] eqn:Hop.
  - destruct (decide (op_graph op = graph_id g)) as [Hsame|Hdiff].
    + exists self, g. split_and!; [by eapply Hkeep|done|by eapply Hkeep|].
      by eapply Hother.
    + eexists _, _. split_and!; [by eapply Hrebuild|done|by eapply Hkeep|].
      by eapply Hother.
  - eexists _, _. split_and!; [by eapply Hfirst|done|by eapply Hkeep|].
    by eapply Hother.
Qed.

Lemma begin_caches_per_graph_witness :
  ∃ self1 g1,
    begin (BroadcastGlobalVariablesHook__init__ 0 "") Example.model_graph
      = Ok (self1, g1) ∧
    begin self1 g1 = Ok (self1, g1) ∧
    ∃ op g2',
      broadcast_global_variables 0 Example.other_graph = Ok (op, g2') ∧
      op_graph op = 2%nat ∧
      begin self1 Example.other_graph
      = Ok ({| root_rank := 0; bcast_op := Some op; device := "" |}, g2').
Proof.
  destruct (begin_caches_per_graph
              (BroadcastGlobalVariablesHook__init__ 0 "") Example.model_graph)
    as (self1 & g1 & Hfirst & Hid & Hagain & Hother).
  exists self1, g1. split; [exact Hfirst|]. split; [exact Hagain|].
  apply (Hother Example.other_graph).
  rewrite Hid. discriminate.
Defined.

(* ===================================================================== *)
(** ** Deferred mode at run time *)

(** *** Running a list of assignments *)

Lemma run_ops_cons group me op ops vars :
  run_ops group me (op :: ops) vars
  = run_op group me op vars ≫= run_ops group me ops.
Proof. reflexivity. Qed.

Lemma run_op_group group me graph ops vars :
  run_op group me (Group graph ops) vars = run_ops group me ops vars.
Proof. reflexivity. Qed.

Lemma run_assign_all_is_Some group me graph target value ts vars :
  (∀ t, t ∈ ts → is_Some (eval group me (value t))) →
  is_Some (run_ops group me (assign_all graph target value ts) vars).
Proof.
  revert vars. induction ts as [|t ts IH]; intros vars Hval; [by eexists|].
  unfold assign_all. rewrite fmap_cons, run_ops_cons. cbn [run_op].
  destruct (Hval t) as [x ->]; [by left|]. cbn.
  apply IH. intros t' Hin. apply Hval. by right.
Qed.

Lemma run_assign_all_inv group me graph target value ts vars vars' :
  run_ops group me (assign_all graph target value ts) vars = Some vars' →
  (∀ n, n ∉ (var_name ∘ target <$> ts) → vars' !! n = vars !! n) ∧
  (NoDup (var_name ∘ target <$> ts) →
   ∀ t, t ∈ ts →
     ∃ x, eval group me (value t) = Some x
          ∧ vars' !! var_name (target t) = Some x).
Proof.
  revert vars. induction ts as [|t ts IH]; intros vars.
  - intros [= <-]. split; [done|]. by intros _ t ?%elem_of_nil.
  - unfold assign_all. rewrite fmap_cons, run_ops_cons. cbn [run_op].
    destruct (eval group me (value t)) as [x|] eqn:Hx; [|done]. cbn.
    intros Hrest. destruct (IH _ Hrest) as [Hframe Hset]. split.
    + intros n [Hne Hnotin]%not_elem_of_cons.
      rewrite Hframe by done. by rewrite lookup_insert_ne.
    + intros [Hfresh Hnodup]%NoDup_cons t' Hin.
      apply elem_of_cons in Hin as [->|Hin]; [|by apply Hset].
      exists x. split; [done|]. rewrite Hframe by done.
      apply lookup_insert_eq.
Qed.

(** *** The names of the buffers of a list are distinct *)

Lemma shadow_names_dense gradients :
  shadow_names gradients
  = flat_map (λ t, [var_name (pending t); var_name (staged t)])
             (dense_gradients gradients).
Proof. reflexivity. Qed.

Lemma NoDup_shadow_names ts :
  NoDup (flat_map (λ t, [var_name (pending t); var_name (staged t)]) ts) →
  NoDup (var_name ∘ pending <$> ts) ∧ NoDup (var_name ∘ staged <$> ts).
Proof.
  induction ts as [|t ts IH]; cbn [flat_map app].
  - intros _. split; constructor.
  - intros [Hr [Hc Hrest]%NoDup_cons]%NoDup_cons.
    destruct (IH Hrest) as [IHr IHc].
    apply not_elem_of_cons in Hr as [_ Hr].
    rewrite !fmap_cons. split; apply NoDup_cons; split; try done.
    + intros (t' & Heq & Hin)%list_elem_of_fmap. apply Hr.
      apply list_elem_of_In, in_flat_map. exists t'.
      split; [by apply list_elem_of_In|]. cbn in *. left. congruence.
    + intros (t' & Heq & Hin)%list_elem_of_fmap. apply Hc.
      apply list_elem_of_In, in_flat_map. exists t'.
      split; [by apply list_elem_of_In|]. cbn in *. right. left. congruence.
Qed.

Lemma pending_not_staged t (ts : list Tensor) :
  var_name (pending t) ∉ (var_name ∘ staged <$> ts).
Proof.
  intros (t' & Heq & _)%list_elem_of_fmap. by apply pending_staged_ne in Heq.
Qed.

Lemma staged_not_pending t (ts : list Tensor) :
  var_name (staged t) ∉ (var_name ∘ pending <$> ts).
Proof.
  intros (t' & Heq & _)%list_elem_of_fmap.
  symmetry in Heq. by apply pending_staged_ne in Heq.
Qed.

(** *** The value of the returned gradients *)

Lemma eval_averaged group me size t :
  eval group me (averaged size t)
  = mapM (λ p, eval group p t) group ≫= average_values (tensor_dtype t) size.
Proof.
  unfold averaged, average_values, tf_cast. cbn [eval tensor_dtype].
  destruct (mapM _ group) as [xs|]; [|done]. cbn.
  by destruct (allreduce_sum xs).
Qed.

Lemma eval_deferred_gradient group me size loss t :
  eval group me (deferred_gradient size loss t)
  = mapM (λ p, variables (session p) !! var_name (pending t)) group
      ≫= average_values (tensor_dtype t) size.
Proof. unfold deferred_gradient. cbn [eval]. by rewrite eval_averaged. Qed.

Lemma average_values_ready dt size xs n :
  xs ≠ [] → size = Z.of_nat (length xs) →
  Forall (λ x, length x = n) xs →
  ∃ v, average_values dt size xs = Some v ∧ length v = n.
Proof.
  intros Hne -> Hlen.
  destruct (allreduce_sum_spec xs n Hne Hlen) as (s & Hs & Hl & _).
  unfold average_values. rewrite Hs. cbn. unfold div_value.
  rewrite inject_Z_size_nonzero by (destruct xs; [done|cbn; lia]).
  eexists. split; [done|]. by rewrite length_map.
Qed.

Lemma elem_of_processes p feeds w :
  p ∈ processes feeds w → computed p ∈ feeds ∧ session p ∈ w.
Proof. by intros (f & s & -> & ? & ?)%elem_of_zip_with. Qed.

Lemma length_processes feeds w :
  length feeds = length w → length (processes feeds w) = length w.
Proof. intros Hlen. unfold processes. rewrite length_zip_with. lia. Qed.

Lemma eval_local group p t x :
  local_value (computed p) t = Some x → eval group p t = Some x.
Proof. by destruct t. Qed.

Lemma elem_of_dense_gradients (gradients : list GradAndVar) i t var :
  gradients !! i = Some (Some (Dense t), var) → t ∈ dense_gradients gradients.
Proof.
  intros Hi. unfold dense_gradients. apply list_elem_of_omap.
  exists (Some (Dense t), var). split; [|done].
  by eapply list_elem_of_lookup_2.
Qed.

Lemma eval_deferred_gradient_ready ts feeds w size loss t me :
  buffers_ready ts w → t ∈ ts →
  length feeds = length w → w ≠ [] → size = Z.of_nat (length w) →
  ∃ v, eval (processes feeds w) me (deferred_gradient size loss t) = Some v
       ∧ length v = num_elements (tensor_shape t).
Proof.
  intros Hready Ht Hlen Hne Hsize. rewrite eval_deferred_gradient.
  pose proof (length_processes _ _ Hlen) as Hlg.
  destruct (mapM (λ p, variables (session p) !! var_name (pending t))
              (processes feeds w)) as [xs|] eqn:Hxs.
  - cbn. apply mapM_Some_1 in Hxs.
    apply average_values_ready.
    + intros ->. apply Forall2_length in Hxs. rewrite Hlg in Hxs.
      by destruct w.
    + apply Forall2_length in Hxs. rewrite Hsize, <- Hlg. f_equal. exact Hxs.
    + apply Forall_lookup. intros i x Hx.
      destruct (Forall2_lookup_r _ _ _ _ _ Hxs Hx) as (p & Hp & Hpx).
      apply list_elem_of_lookup_2, elem_of_processes in Hp as [_ Hs].
      destruct (Hready _ _ Hs Ht) as (x' & Hx' & Hl).
      cbv beta in Hpx. rewrite Hx' in Hpx. injection Hpx as <-. exact Hl.
  - apply mapM_None_1, Exists_exists in Hxs as (p & Hp & Hnone).
    apply elem_of_processes in Hp as [_ Hs].
    destruct (Hready _ _ Hs Ht) as (x' & Hx' & Hl).
    cbv beta in Hnone. rewrite Hx' in Hnone. discriminate.
Qed.

(** *** One process, one step *)

Section Deferred_step.

Context (size : Z) (loss : Tensor) (graph hook_graph : GraphId).
Context (gradients : list GradAndVar).

Local Abbreviation ts := (dense_gradients gradients).
Local Abbreviation returned := (deferred_pair size loss <$> gradients).
Local Abbreviation staging := (assign_all graph staged (λ t, t) ts).
Local Abbreviation flips :=
  (assign_all graph pending (λ t, ReadVariable (staged t)) ts).
Local Abbreviation hook :=
  {| grad_flip_ops := flips; grad_flip_ops_group := Group hook_graph flips |}.
Local Abbreviation all_dense :=
  (Forall (λ gv : GradAndVar,
             match gv.1 with
             | Some (IndexedSlices _ _ _) => False
             | Some (Dense t) => is_fully_defined (tensor_shape t) = true
             | None => True
             end) gradients).

Lemma train_run_is_Some feeds w p :
  all_dense → buffers_ready ts w → locals_ready ts feeds →
  length feeds = length w → w ≠ [] → size = Z.of_nat (length w) →
  p ∈ processes feeds w →
  is_Some (train_run returned staging (processes feeds w) p).
Proof.
  intros Hdense Hready Hlocal Hlen Hne Hsize Hp. unfold train_run.
  assert (is_Some (mapM (eval_gradient (processes feeds w) p) returned))
    as [applied ->].
  { apply mapM_is_Some_2, Forall_fmap, Forall_lookup.
    intros i [[[t|v j s]|] var] Hi.
    - unfold compose, eval_gradient, deferred_pair. cbn [fst snd eval_like].
      destruct (eval_deferred_gradient_ready ts feeds w size loss t p)
        as (v & -> & _); [done|by eapply elem_of_dense_gradients|done..|].
      by eexists.
    - by destruct (proj1 (Forall_lookup _ _) Hdense _ _ Hi).
    - by eexists. }
  cbn.
  destruct (run_assign_all_is_Some (processes feeds w) p graph staged
              (λ t, t) ts (variables (session p))) as [vars ->];
    [|by eexists].
  intros t Ht. apply elem_of_processes in Hp as [Hf _].
  destruct (Hlocal _ _ Hf Ht) as (x & Hx & _).
  rewrite (eval_local _ _ _ _ Hx). by eexists.
Qed.

Lemma train_run_inv group p r :
  NoDup (shadow_names gradients) →
  train_run returned staging group p = Some r →
  (∀ t, t ∈ ts →
     ∃ x, eval group p t = Some x
          ∧ variables r.2 !! var_name (staged t) = Some x) ∧
  (∀ t, variables r.2 !! var_name (pending t)
        = variables (session p) !! var_name (pending t)) ∧
  (∀ i t var, gradients !! i = Some (Some (Dense t), var) →
     ∃ v, r.1 !! i = Some (Some (DenseValue v))
          ∧ eval group p (deferred_gradient size loss t) = Some v).
Proof.
  intros Hnd Hrun. unfold train_run in Hrun.
  destruct (mapM (eval_gradient group p) returned) as [applied|] eqn:Happ;
    [|done].
  cbn in Hrun.
  destruct (run_ops group p staging (variables (session p)))
    as [vars|] eqn:Hops; [|done].
  cbn in Hrun. injection Hrun as <-. cbn [fst snd variables].
  destruct (run_assign_all_inv _ _ _ _ _ _ _ _ Hops) as [Hframe Hset].
  destruct (NoDup_shadow_names _ Hnd) as [Hr Hc]. split_and!.
  - intros t Ht. by apply Hset.
  - intros t. apply Hframe, pending_not_staged.
  - intros i t var Hi. apply mapM_Some_1 in Happ.
    assert (returned !! i
            = Some (Some (Dense (deferred_gradient size loss t)), var))
      as Hout by (by rewrite list_lookup_fmap, Hi).
    destruct (Forall2_lookup_l _ _ _ _ _ Happ Hout) as (a & Ha & Hev).
    cbv beta in Hev. unfold eval_gradient in Hev.
    cbn [fst snd eval_like] in Hev.
    destruct (eval group p (deferred_gradient size loss t)) as [v|];
      [|done].
    cbn in Hev. injection Hev as <-. by exists v.
Qed.

Lemma after_run_is_Some group p :
  (∀ t, t ∈ ts → is_Some (variables (session p) !! var_name (staged t))) →
  is_Some (after_run hook group p).
Proof.
  intros Hstaged. unfold after_run. cbn [grad_flip_ops grad_flip_ops_group].
  destruct (0 <? length flips)%nat; [|by eexists].
  unfold Session_run. rewrite run_op_group.
  destruct (run_assign_all_is_Some group p graph pending
              (λ t, ReadVariable (staged t)) ts (variables (session p)))
    as [vars ->]; [|by eexists].
  intros t Ht. by apply Hstaged.
Qed.

Lemma after_run_inv group p s' :
  NoDup (shadow_names gradients) →
  after_run hook group p = Some s' →
  (∀ t, t ∈ ts →
     ∃ x, variables (session p) !! var_name (staged t) = Some x
          ∧ variables s' !! var_name (pending t) = Some x) ∧
  (∀ t, variables s' !! var_name (staged t)
        = variables (session p) !! var_name (staged t)).
Proof.
  intros Hnd. destruct (NoDup_shadow_names _ Hnd) as [Hr Hc].
  unfold after_run. cbn [grad_flip_ops grad_flip_ops_group].
  destruct (0 <? length flips)%nat eqn:Hlen.
  - unfold Session_run. rewrite run_op_group.
    destruct (run_ops group p flips (variables (session p)))
      as [vars|] eqn:Hops; [|done].
    cbn. intros [= <-]. cbn [variables].
    destruct (run_assign_all_inv _ _ _ _ _ _ _ _ Hops) as [Hframe Hset].
    split.
    + intros t Ht. exact (Hset Hr t Ht).
    + intros t. apply Hframe, staged_not_pending.
  - intros [= <-]. apply Nat.ltb_ge in Hlen.
    unfold assign_all in Hlen. rewrite length_fmap in Hlen.
    assert (ts = []) as -> by (apply nil_length_inv; lia).
    split; [|done]. by intros t ?%elem_of_nil.
Qed.

End Deferred_step.

(** *** The whole group, one step *)

Lemma deferred_step_spec size loss graph hook_graph gradients feeds w :
  Forall (λ gv : GradAndVar,
            match gv.1 with
            | Some (IndexedSlices _ _ _) => False
            | Some (Dense t) => is_fully_defined (tensor_shape t) = true
            | None => True
            end) gradients →
  NoDup (shadow_names gradients) →
  buffers_ready (dense_gradients gradients) w →
  locals_ready (dense_gradients gradients) feeds →
  length feeds = length w → w ≠ [] → size = Z.of_nat (length w) →
  ∃ run w',
    run_train (deferred_pair size loss <$> gradients)
      (assign_all graph staged (λ t, t) (dense_gradients gradients))
      feeds w = Some run ∧
    run_after
      {| grad_flip_ops :=
           assign_all graph pending (λ t, ReadVariable (staged t))
             (dense_gradients gradients);
         grad_flip_ops_group :=
           Group hook_graph
             (assign_all graph pending (λ t, ReadVariable (staged t))
                (dense_gradients gradients)) |}
      (run.*2) = Some w' ∧
    length run = length w ∧ length w' = length w ∧
    buffers_ready (dense_gradients gradients) w' ∧
    ∀ k f s, feeds !! k = Some f → w !! k = Some s →
      ∃ r s', run !! k = Some r ∧ w' !! k = Some s' ∧
        (∀ t, t ∈ dense_gradients gradients →
           ∃ x, local_value f t = Some x
                ∧ length x = num_elements (tensor_shape t)
                ∧ variables r.2 !! var_name (staged t) = Some x
                ∧ variables s' !! var_name (pending t) = Some x) ∧
        (∀ t, variables r.2 !! var_name (pending t)
              = variables s !! var_name (pending t)) ∧
        (∀ i t var, gradients !! i = Some (Some (Dense t), var) →
           ∃ v, r.1 !! i = Some (Some (DenseValue v))
                ∧ eval (processes feeds w) {| computed := f; session := s |}
                    (deferred_gradient size loss t) = Some v).
Proof.
  intros Hdense Hnd Hready Hlocal Hlen Hne Hsize.
  unfold run_train, run_after.
  assert (is_Some (mapM (train_run (deferred_pair size loss <$> gradients)
                           (assign_all graph staged (λ t, t)
                              (dense_gradients gradients))
                           (processes feeds w)) (processes feeds w)))
    as [run Hrun].
  { apply mapM_is_Some_2, Forall_forall. intros p Hp.
    by apply train_run_is_Some. }
  pose proof (mapM_Some_1 _ _ _ Hrun) as F1.
  pose (hook :=
          {| grad_flip_ops :=
               assign_all graph pending (λ t, ReadVariable (staged t))
                 (dense_gradients gradients);
             grad_flip_ops_group :=
               Group hook_graph
                 (assign_all graph pending (λ t, ReadVariable (staged t))
                    (dense_gradients gradients)) |}).
  pose (G' := idle (run.*2)).
  assert (is_Some (mapM (after_run hook G') G')) as [w' Hw'].
  { apply mapM_is_Some_2. unfold G', idle.
    apply Forall_fmap, Forall_fmap, Forall_lookup. intros k r Hr.
    unfold compose. apply after_run_is_Some. cbn [session]. intros t Ht.
    destruct (Forall2_lookup_r _ _ _ _ _ F1 Hr) as (p & Hp & Hpr).
    destruct (train_run_inv _ _ _ _ _ _ _ Hnd Hpr) as (Hst & _ & _).
    destruct (Hst t Ht) as (x & _ & ->). by eexists. }
  pose proof (mapM_Some_1 _ _ _ Hw') as F2.
  exists run, w'. split; [exact Hrun|]. split; [exact Hw'|].
  assert (length run = length w) as Hlrun.
  { apply Forall2_length in F1. rewrite <- F1. by apply length_processes. }
  split; [exact Hlrun|].
  assert (length w' = length w) as Hlw'.
  { apply Forall2_length in F2. rewrite <- F2. unfold G', idle.
    by rewrite !length_fmap. }
  split; [exact Hlw'|].
  match goal with |- _ ∧ ?P => assert P as Hfacts end; last first.
  { split; [|exact Hfacts]. intros s' t Hs' Ht.
    apply list_elem_of_lookup_1 in Hs' as [k Hk].
    assert (k < length w)%nat as Hlt
      by (rewrite <- Hlw'; by eapply lookup_lt_Some).
    destruct (lookup_lt_is_Some_2 w k Hlt) as [s Hs].
    destruct (lookup_lt_is_Some_2 feeds k) as [f Hf]; [by rewrite Hlen|].
    destruct (Hfacts k f s Hf Hs) as (r & s'' & _ & Hk' & Hbuf & _).
    rewrite Hk in Hk'. injection Hk' as <-.
    destruct (Hbuf t Ht) as (x & _ & Hl & _ & Hx). by exists x. }
  intros k f s Hf Hs.
  assert (processes feeds w !! k = Some {| computed := f; session := s |})
    as HG by (unfold processes; by rewrite lookup_zip_with, Hf, Hs).
  destruct (Forall2_lookup_l _ _ _ _ _ F1 HG) as (r & Hr & Hpr).
  assert (G' !! k = Some {| computed := ∅; session := r.2 |}) as HG'
    by (unfold G', idle; by rewrite !list_lookup_fmap, Hr).
  destruct (Forall2_lookup_l _ _ _ _ _ F2 HG') as (s' & Hs' & Hps').
  exists r, s'. split; [done|]. split; [done|].
  destruct (train_run_inv _ _ _ _ _ _ _ Hnd Hpr) as (Hst & Hkeep & Happ).
  destruct (after_run_inv _ _ _ _ _ _ Hnd Hps') as (Hflip & _).
  split_and!.
  - intros t Ht. destruct (Hst t Ht) as (x & Hev & Hx).
    destruct (Hlocal f t) as (x' & Hx' & Hl);
      [by eapply list_elem_of_lookup_2|done|].
    rewrite (eval_local _ {| computed := f; session := s |} _ _ Hx') in Hev.
    injection Hev as <-. exists x'. split_and!; [done..|].
    destruct (Hflip t Ht) as (y & Hy & Hy'). cbn [session] in Hy.
    rewrite Hx in Hy. by injection Hy as <-.
  - intros t. apply Hkeep.
  - exact Happ.
Qed.

(** *** The first step: buffers as the initializer leaves them *)

Lemma initialize_frame (vars : gmap string Value) bufs n :
  n ∉ (var_name <$> bufs) →
  foldl (λ vars v, <[var_name v := initial_value v]> vars) vars bufs !! n
  = vars !! n.
Proof.
  revert vars. induction bufs as [|u bufs IH]; intros vars Hn; [done|].
  rewrite fmap_cons in Hn. apply not_elem_of_cons in Hn as [Hne Hn].
  cbn. rewrite IH by done. by rewrite lookup_insert_ne.
Qed.

Lemma initialize_lookup (vars : gmap string Value) bufs v :
  NoDup (var_name <$> bufs) → v ∈ bufs →
  foldl (λ vars v, <[var_name v := initial_value v]> vars) vars bufs
    !! var_name v = Some (initial_value v).
Proof.
  revert vars. induction bufs as [|u bufs IH]; intros vars Hnd Hin;
    [by apply elem_of_nil in Hin|].
  rewrite fmap_cons in Hnd. apply NoDup_cons in Hnd as [Hu Hnd]. cbn.
  apply elem_of_cons in Hin as [->|Hin]; [|by apply IH].
  rewrite initialize_frame by done. apply lookup_insert_eq.
Qed.

Lemma shadow_buffer_names ts :
  var_name <$> flat_map (λ t, [pending t; staged t]) ts
  = flat_map (λ t, [var_name (pending t); var_name (staged t)]) ts.
Proof. induction ts as [|t ts IH]; [done|]. cbn. by rewrite IH. Qed.

Lemma initialize_pending ts g s0 t :
  NoDup (flat_map (λ t, [var_name (pending t); var_name (staged t)]) ts) →
  t ∈ ts →
  variables (initialize (registered_graph ts g) s0) !! var_name (pending t)
  = Some (replicate (num_elements (tensor_shape t)) 0%Q).
Proof.
  intros Hnd Ht. unfold initialize. cbn [variables].
  rewrite registered_graph_variables, foldl_app.
  rewrite (initialize_lookup _ _ (pending t)); [done|..].
  - by rewrite shadow_buffer_names.
  - apply list_elem_of_In, in_flat_map. exists t.
    split; [by apply list_elem_of_In|]. by left.
Qed.

Lemma add_values_zero n :
  add_values (replicate n 0%Q) (replicate n 0%Q) = Some (replicate n 0%Q).
Proof. induction n as [|n IH]; [done|]. cbn. by rewrite IH. Qed.

Lemma allreduce_sum_zero k n :
  allreduce_sum (replicate (S k) (replicate n 0%Q))
  = Some (replicate n 0%Q).
Proof.
  induction k as [|k IH]; [done|].
  change (replicate (S (S k)) (replicate n 0%Q))
    with (replicate n 0%Q :: replicate (S k) (replicate n 0%Q)).
  change (allreduce_sum (?v :: replicate (S k) ?z))
    with (allreduce_sum (replicate (S k) z) ≫= add_values v).
  rewrite IH. apply add_values_zero.
Qed.

Lemma mapM_replicate {A B} (f : A → option B) (l : list A) z :
  (∀ x, x ∈ l → f x = Some z) → mapM f l = Some (replicate (length l) z).
Proof.
  intros Hf. apply mapM_Some_2.
  induction l as [|x l IH]; cbn; constructor.
  - apply Hf. by left.
  - apply IH. intros y Hy. apply Hf. by right.
Qed.

Lemma div_element_zero dt y : (div_element dt 0 y == 0)%Q.
Proof.
  unfold div_element. destruct (is_floating dt).
  - unfold Qdiv. ring.
  - assert (0 / y == 0)%Q as -> by (unfold Qdiv; ring). reflexivity.
Qed.

Lemma average_of_zeros dt (k n : nat) :
  ∃ zeros,
    average_values dt (Z.of_nat (S k)) (replicate (S k) (replicate n 0%Q))
    = Some zeros ∧
    length zeros = n ∧ Forall (λ x, (x == 0)%Q) zeros.
Proof.
  unfold average_values. rewrite allreduce_sum_zero. cbn [mbind option_bind].
  unfold div_value. rewrite inject_Z_size_nonzero by lia.
  eexists. split; [done|]. split.
  - by rewrite length_map, length_replicate.
  - induction n as [|n IH]; cbn; constructor; [apply div_element_zero|done].
Qed.

(** C10: in deferred mode, in a group of more than one process whose
    variables have just been initialized, the gradient returned for a
    variable evaluates, on every process and whatever the local gradients
    are, to the average of the zero-filled pending buffers: a tensor of
    the gradient's shape whose elements are all zero. *)
Theorem first_step_gradient_is_zero
    size base self loss g gradients g1 out g2
    (feeds : list (gmap string Value)) (w : list Session) me i t var :
  (1 < size)%Z → _deferred self = true →
  base loss g = Ok (gradients, g1) →
  compute_gradients size base self loss g = Ok (out, g2) →
  size = Z.of_nat (length w) → length feeds = length w →
  (∀ s, s ∈ w → ∃ s0, s = initialize g2 s0) →
  gradients !! i = Some (Some (Dense t), var) →
  ∃ zeros,
    out !! i = Some (Some (Dense (deferred_gradient size loss t)), var) ∧
    eval_gradient (processes feeds w) me
      (Some (Dense (deferred_gradient size loss t)), var)
    = Some (Some (DenseValue zeros)) ∧
    length zeros = num_elements (tensor_shape t) ∧
    Forall (λ x, (x == 0)%Q) zeros.
Proof.
  intros Hsize Hmode Hbase Hcg Hw Hlen Hinit Hi.
  destruct (compute_gradients_deferred _ _ _ _ _ _ _ Hsize Hmode Hbase)
    as [Hok Hinv].
  assert (deferrable g1 gradients) as Hcan by (apply Hinv; by eexists).
  rewrite (Hok Hcan) in Hcg. injection Hcg as <- <-.
  destruct Hcan as (_ & Hnd & _).
  assert (t ∈ dense_gradients gradients) as Ht
    by (by eapply elem_of_dense_gradients).
  pose proof (length_processes _ _ Hlen) as Hlp.
  destruct (length w) as [|[|k]] eqn:Hk; [lia..|].
  destruct (average_of_zeros (tensor_dtype t) (S k)
              (num_elements (tensor_shape t))) as (zeros & Hz & Hl & Hall).
  exists zeros. split; [by rewrite list_lookup_fmap, Hi|].
  split; [|done].
  unfold eval_gradient. cbn [fst eval_like].
  rewrite eval_deferred_gradient.
  rewrite (mapM_replicate _ _ (replicate (num_elements (tensor_shape t)) 0%Q)).
  - rewrite Hlp. cbn [mbind option_bind]. rewrite Hw, Hz. done.
  - intros p [_ Hs]%elem_of_processes.
    destruct (Hinit _ Hs) as [s0 ->]. by apply initialize_pending.
Qed.

Lemma example_compute_gradients :
  compute_gradients 2 Example.dense_base Example.deferred Example.loss
    Example.graph = Ok (Example.returned, Example.registered).
Proof. vm_compute. reflexivity. Qed.

Lemma first_step_gradient_is_zero_witness :
  ∃ zeros,
    eval_gradient (processes Example.step1 Example.world)
      {| computed := ∅; session := Example.fresh_session |}
      (Some (Dense (deferred_gradient 2 Example.loss Example.w_grad)),
       Example.w)
    = Some (Some (DenseValue zeros)) ∧
    length zeros = 2%nat ∧
    Forall (λ x, (x == 0)%Q) zeros.
Proof.
  destruct (first_step_gradient_is_zero 2 Example.dense_base Example.deferred
              Example.loss Example.graph Example.gradients Example.graph
              Example.returned Example.registered Example.step1 Example.world
              {| computed := ∅; session := Example.fresh_session |}
              0%nat Example.w_grad Example.w)
    as (zeros & _ & Hzero & Hlen & Hall).
  - reflexivity.
  - reflexivity.
  - reflexivity.
  - exact example_compute_gradients.
  - reflexivity.
  - reflexivity.
  - intros s Hs. exists Example.fresh_session.
    apply elem_of_cons in Hs as [->|Hs]; [reflexivity|].
    apply elem_of_cons in Hs as [->|Hs]; [reflexivity|].
    by apply elem_of_nil in Hs.
  - reflexivity.
  - exists zeros. split; [exact Hzero|]. split; [exact Hlen|exact Hall].
Defined.

(** *** One step of staleness *)

Lemma train_step_compose out update_ops hook feeds w run w' :
  run_train out update_ops feeds w = Some run →
  run_after hook (run.*2) = Some w' →
  train_step out update_ops hook feeds w = Some (run.*1, w').
Proof.
  intros Hrun Hafter. unfold train_step. rewrite Hrun.
  cbn [mbind option_bind]. by rewrite Hafter.
Qed.

(** The flip leaves the staged buffers as they are. *)
Lemma run_after_keeps_staged graph hook_graph gradients
    (ws w' : list Session) k s s' t :
  NoDup (shadow_names gradients) →
  run_after
    {| grad_flip_ops :=
         assign_all graph pending (λ t, ReadVariable (staged t))
           (dense_gradients gradients);
       grad_flip_ops_group :=
         Group hook_graph
           (assign_all graph pending (λ t, ReadVariable (staged t))
              (dense_gradients gradients)) |} ws = Some w' →
  ws !! k = Some s → w' !! k = Some s' →
  variables s' !! var_name (staged t) = variables s !! var_name (staged t).
Proof.
  intros Hnd Hafter Hs Hs'. unfold run_after in Hafter.
  apply mapM_Some_1 in Hafter.
  assert (idle ws !! k = Some {| computed := ∅; session := s |}) as Hp
    by (unfold idle; by rewrite list_lookup_fmap, Hs).
  destruct (Forall2_lookup_l _ _ _ _ _ Hafter Hp) as (s'' & Hs'' & Hflip).
  rewrite Hs' in Hs''. injection Hs'' as <-.
  destruct (after_run_inv _ _ _ _ _ _ Hnd Hflip) as (_ & Hkeep).
  apply Hkeep.
Qed.

(** C1, as the code has it.  Deferred mode, a group of more than one
    process, no other operation registered under [UPDATE_OPS] or
    [GRAD_FLIP_OPS]; the training loop, which is not part of the module,
    runs the operations of [UPDATE_OPS] in the [run] call of each step and
    uses a [PostStepHook] built after [compute_gradients], whose
    [after_run] ends the step.  Take any state in which the pending
    buffers hold values of the gradients' shapes (the state after
    initialization, or after any step) and two consecutive steps in which
    every process computes its local gradients.  Both steps run, and

    - the gradient every process gets (and applies) in the second step is,
      for each variable, the value [allreduce] with averaging has for the
      local gradients of the first step;
    - while the second step runs, until [after_run] flips, each pending
      buffer holds what the staged buffer held at the boundary between
      the two steps;
    - at the boundary that ends a step, after the flip, the pending and
      the staged buffer both hold the local gradient of the step that has
      just ended: the pending buffer at one boundary is not what the
      staged buffer held at the boundary before.

    The buffers are ready again afterwards, so this holds for every pair
    of consecutive steps. *)
Theorem deferred_staleness
    size base self loss g gradients g1 out g2 hook g3
    (feeds1 feeds2 : list (gmap string Value)) (w : list Session) :
  (1 < size)%Z → _deferred self = true →
  base loss g = Ok (gradients, g1) →
  collection GraphKeys.UPDATE_OPS g1 = [] →
  collection GraphKeys.GRAD_FLIP_OPS g1 = [] →
  compute_gradients size base self loss g = Ok (out, g2) →
  PostStepHook__init__ g2 = Ok (hook, g3) →
  size = Z.of_nat (length w) →
  length feeds1 = length w → length feeds2 = length w →
  buffers_ready (dense_gradients gradients) w →
  locals_ready (dense_gradients gradients) feeds1 →
  locals_ready (dense_gradients gradients) feeds2 →
  ∃ run1 w1 run2 w2,
    run_train out (collection GraphKeys.UPDATE_OPS g3) feeds1 w = Some run1 ∧
    run_after hook (run1.*2) = Some w1 ∧
    run_train out (collection GraphKeys.UPDATE_OPS g3) feeds2 w1 = Some run2 ∧
    run_after hook (run2.*2) = Some w2 ∧
    train_step out (collection GraphKeys.UPDATE_OPS g3) hook feeds1 w
      = Some (run1.*1, w1) ∧
    train_step out (collection GraphKeys.UPDATE_OPS g3) hook feeds2 w1
      = Some (run2.*1, w2) ∧
    buffers_ready (dense_gradients gradients) w2 ∧
    (∀ k r2 i t var,
       run2 !! k = Some r2 →
       gradients !! i = Some (Some (Dense t), var) →
       ∃ v, out !! i = Some (Some (Dense (deferred_gradient size loss t)), var)
            ∧ r2.1 !! i = Some (Some (DenseValue v))
            ∧ ∀ me, eval (processes feeds1 w) me (averaged size t) = Some v) ∧
    (∀ k s1 r2 t,
       w1 !! k = Some s1 → run2 !! k = Some r2 →
       t ∈ dense_gradients gradients →
       ∃ x, variables s1 !! var_name (staged t) = Some x
            ∧ variables r2.2 !! var_name (pending t) = Some x) ∧
    (∀ k f1 f2 s1 s2 t,
       feeds1 !! k = Some f1 → feeds2 !! k = Some f2 →
       w1 !! k = Some s1 → w2 !! k = Some s2 →
       t ∈ dense_gradients gradients →
       ∃ x1 x2,
         local_value f1 t = Some x1 ∧ local_value f2 t = Some x2
         ∧ variables s1 !! var_name (pending t) = Some x1
         ∧ variables s1 !! var_name (staged t) = Some x1
         ∧ variables s2 !! var_name (pending t) = Some x2
         ∧ variables s2 !! var_name (staged t) = Some x2).
Proof.
  intros Hsize Hmode Hbase HU HF Hcg Hhook Hw Hl1 Hl2 Hready Hloc1 Hloc2.
  destruct (compute_gradients_deferred _ _ _ _ _ _ _ Hsize Hmode Hbase)
    as [Hok Hinv].
  assert (deferrable g1 gradients) as Hcan by (apply Hinv; by eexists).
  rewrite (Hok Hcan) in Hcg. injection Hcg as <- <-.
  destruct Hcan as (Hdense & Hnd & _).
  unfold PostStepHook__init__, bind, tf_get_collection, tf_group, ret in Hhook.
  injection Hhook as <- <-.
  change (default [] (collections ?g !! ?k)) with (collection k g).
  rewrite registered_graph_updates, registered_graph_flips, HU, HF, !app_nil_l.
  assert (w ≠ []) as Hne by (intros ->; cbn in Hw; lia).
  destruct (deferred_step_spec size loss (graph_id g1)
              (graph_id (registered_graph (dense_gradients gradients) g1))
              gradients feeds1 w Hdense Hnd Hready Hloc1 Hl1 Hne Hw)
    as (run1 & w1 & Hrun1 & Hafter1 & Hlr1 & Hlw1 & Hready1 & Hfacts1).
  assert (w1 ≠ []) as Hne1 by (intros ->; destruct w; [done|cbn in Hlw1; lia]).
  destruct (deferred_step_spec size loss (graph_id g1)
              (graph_id (registered_graph (dense_gradients gradients) g1))
              gradients feeds2 w1 Hdense Hnd Hready1 Hloc2)
    as (run2 & w2 & Hrun2 & Hafter2 & Hlr2 & Hlw2 & Hready2 & Hfacts2);
    [congruence|done|congruence|].
  assert (∀ k f1 s1 t,
            feeds1 !! k = Some f1 → w1 !! k = Some s1 →
            t ∈ dense_gradients gradients →
            ∃ x, local_value f1 t = Some x
                 ∧ variables s1 !! var_name (pending t) = Some x
                 ∧ variables s1 !! var_name (staged t) = Some x) as Hend1.
  { intros k f1 s1 t Hf1 Hs1 Ht.
    assert (is_Some (w !! k)) as [s Hs].
    { apply lookup_lt_is_Some_2. rewrite <- Hlw1. by eapply lookup_lt_Some. }
    destruct (Hfacts1 k f1 s Hf1 Hs) as (r & s' & Hr & Hs' & Hbuf & _).
    rewrite Hs1 in Hs'. injection Hs' as <-.
    destruct (Hbuf t Ht) as (x & Hx & _ & Hc & Hp).
    exists x. split; [done|]. split; [done|].
    rewrite (run_after_keeps_staged _ _ _ _ _ k r.2 s1 t Hnd Hafter1);
      [done|by rewrite list_lookup_fmap, Hr|done]. }
  assert (∀ k f2 s2 t,
            feeds2 !! k = Some f2 → w2 !! k = Some s2 →
            t ∈ dense_gradients gradients →
            ∃ x, local_value f2 t = Some x
                 ∧ variables s2 !! var_name (pending t) = Some x
                 ∧ variables s2 !! var_name (staged t) = Some x) as Hend2.
  { intros k f2 s2 t Hf2 Hs2 Ht.
    assert (is_Some (w1 !! k)) as [s Hs].
    { apply lookup_lt_is_Some_2. rewrite <- Hlw2. by eapply lookup_lt_Some. }
    destruct (Hfacts2 k f2 s Hf2 Hs) as (r & s' & Hr & Hs' & Hbuf & _).
    rewrite Hs2 in Hs'. injection Hs' as <-.
    destruct (Hbuf t Ht) as (x & Hx & _ & Hc & Hp).
    exists x. split; [done|]. split; [done|].
    rewrite (run_after_keeps_staged _ _ _ _ _ k r.2 s2 t Hnd Hafter2);
      [done|by rewrite list_lookup_fmap, Hr|done]. }
  exists run1, w1, run2, w2.
  split; [exact Hrun1|]. split; [exact Hafter1|].
  split; [exact Hrun2|]. split; [exact Hafter2|].
  split; [exact (train_step_compose _ _ _ _ _ _ _ Hrun1 Hafter1)|].
  split; [exact (train_step_compose _ _ _ _ _ _ _ Hrun2 Hafter2)|].
  split; [exact Hready2|]. split; [|split].
  - intros k r2 i t var Hr2 Hi.
    assert (t ∈ dense_gradients gradients) as Ht
      by (by eapply elem_of_dense_gradients).
    assert (k < length w1)%nat as Hk
      by (rewrite <- Hlr2; by eapply lookup_lt_Some).
    destruct (lookup_lt_is_Some_2 w1 k Hk) as [s1 Hs1].
    destruct (lookup_lt_is_Some_2 feeds2 k) as [f2 Hf2]; [congruence|].
    destruct (Hfacts2 k f2 s1 Hf2 Hs1) as (r & s' & Hr & _ & _ & _ & Happ).
    rewrite Hr2 in Hr. injection Hr as <-.
    destruct (Happ i t var Hi) as (v & Hv & Hev).
    exists v. split; [by rewrite list_lookup_fmap, Hi|]. split; [done|].
    intros me. rewrite eval_averaged. rewrite eval_deferred_gradient in Hev.
    assert (mapM (λ p, eval (processes feeds1 w) p t) (processes feeds1 w)
            = mapM (λ p, variables (session p) !! var_name (pending t))
                (processes feeds2 w1)) as ->; [|exact Hev].
    apply Forall2_mapM_ext, Forall2_same_length_lookup_2.
    { rewrite !length_processes by congruence. done. }
    intros j p1 p2 Hp1 Hp2.
    apply lookup_zip_with_Some in Hp1 as (f1 & s & -> & Hf1 & Hs).
    apply lookup_zip_with_Some in Hp2 as (f2' & s1' & -> & _ & Hs1').
    destruct (Hfacts1 j f1 s Hf1 Hs) as (r1 & s'' & _ & Hs'' & Hbuf & _).
    rewrite Hs1' in Hs''. injection Hs'' as <-.
    destruct (Hbuf t Ht) as (x & Hx & _ & _ & Hx').
    rewrite (eval_local _ {| computed := f1; session := s |} _ _ Hx).
    cbn [session]. by rewrite Hx'.
  - intros k s1 r2 t Hs1 Hr2 Ht.
    assert (k < length feeds1)%nat as Hk.
    { rewrite Hl1, <- Hlw1. by eapply lookup_lt_Some. }
    destruct (lookup_lt_is_Some_2 feeds1 k Hk) as [f1 Hf1].
    destruct (Hend1 k f1 s1 t Hf1 Hs1 Ht) as (x & _ & Hp & Hc).
    destruct (lookup_lt_is_Some_2 feeds2 k) as [f2 Hf2]; [congruence|].
    destruct (Hfacts2 k f2 s1 Hf2 Hs1) as (r' & s'' & Hr' & _ & _ & Hkeep & _).
    rewrite Hr2 in Hr'. injection Hr' as <-.
    exists x. split; [done|]. by rewrite Hkeep.
  - intros k f1 f2 s1 s2 t Hf1 Hf2 Hs1 Hs2 Ht.
    destruct (Hend1 k f1 s1 t Hf1 Hs1 Ht) as (x1 & Hx1 & Hp1 & Hc1).
    destruct (Hend2 k f2 s2 t Hf2 Hs2 Ht) as (x2 & Hx2 & Hp2 & Hc2).
    by exists x1, x2.
Qed.

(** After initialization the pending buffers are ready. *)
Lemma initialized_buffers_ready ts g (w : list Session) :
  NoDup (flat_map (λ t, [var_name (pending t); var_name (staged t)]) ts) →
  (∀ s, s ∈ w → ∃ s0, s = initialize (registered_graph ts g) s0) →
  buffers_ready ts w.
Proof.
  intros Hnd Hinit s t Hs Ht. destruct (Hinit s Hs) as [s0 ->].
  rewrite initialize_pending by done.
  eexists. split; [done|]. by rewrite length_replicate.
Qed.

Lemma example_locals_ready feeds :
  feeds = Example.step1 ∨ feeds = Example.step2 →
  locals_ready (dense_gradients Example.gradients) feeds.
Proof.
  intros Hfeeds f t Hf Ht.
  change (dense_gradients Example.gradients)
    with [Example.w_grad; Example.b_grad] in Ht.
  apply elem_of_cons in Ht as [->|Ht];
    [|apply elem_of_cons in Ht as [->|Ht]; [|by apply elem_of_nil in Ht]].
  all: destruct Hfeeds as [-> | ->].
  all: apply elem_of_cons in Hf as [->|Hf];
    [|apply elem_of_cons in Hf as [->|Hf]; [|by apply elem_of_nil in Hf]].
  all: eexists; split; [vm_compute; reflexivity|reflexivity].
Qed.

Lemma deferred_staleness_witness :
  ∃ (run1 : list (list (option GradValue) * Session)) w1
    (run2 : list (list (option GradValue) * Session)) w2,
    train_step Example.returned
      (collection GraphKeys.UPDATE_OPS Example.registered) Example.hook
      Example.step1 Example.world = Some (run1.*1, w1) ∧
    train_step Example.returned
      (collection GraphKeys.UPDATE_OPS Example.registered) Example.hook
      Example.step2 w1 = Some (run2.*1, w2) ∧
    ∀ k r2, run2 !! k = Some r2 →
      ∃ v, r2.1 !! 0%nat = Some (Some (DenseValue v)) ∧
           eval (processes Example.step1 Example.world)
             {| computed := ∅; session := Example.fresh_session |}
             (averaged 2 Example.w_grad) = Some v.
Proof.
  destruct (deferred_staleness 2 Example.dense_base Example.deferred
              Example.loss Example.graph Example.gradients Example.graph
              Example.returned Example.registered Example.hook
              Example.registered Example.step1 Example.step2 Example.world)
    as (run1 & w1 & run2 & w2 & _ & _ & _ & _ & H1 & H2 & _ & Hstale & _).
  - reflexivity.
  - reflexivity.
  - reflexivity.
  - reflexivity.
  - reflexivity.
  - exact example_compute_gradients.
  - vm_compute. reflexivity.
  - reflexivity.
  - reflexivity.
  - reflexivity.
  - apply (initialized_buffers_ready _ Example.graph).
    + apply (bool_decide_unpack _). vm_compute. exact I.
    + intros s Hs. exists Example.fresh_session.
      apply elem_of_cons in Hs as [->|Hs]; [reflexivity|].
      apply elem_of_cons in Hs as [->|Hs]; [reflexivity|].
      by apply elem_of_nil in Hs.
  - apply example_locals_ready. by left.
  - apply example_locals_ready. by right.
  - exists run1, w1, run2, w2. split; [exact H1|]. split; [exact H2|].
    intros k r2 Hr2.
    destruct (Hstale k r2 0%nat Example.w_grad Example.w Hr2 eq_refl)
      as (v & _ & Hv & Hev).
    exists v. split; [exact Hv|]. apply Hev.
Defined.

(** C1 as stated does not hold at the step boundaries: after two whole
    steps, [run] call and hook, the pending buffer of the first process
    holds the local gradient of the second step, while the staged buffer
    held that of the first step at the boundary before. *)
Lemma pending_is_not_previous_staged :
  ∃ applied1 w1 applied2 w2 s1 s2,
    train_step Example.returned
      (collection GraphKeys.UPDATE_OPS Example.registered) Example.hook
      Example.step1 Example.world = Some (applied1, w1) ∧
    train_step Example.returned
      (collection GraphKeys.UPDATE_OPS Example.registered) Example.hook
      Example.step2 w1 = Some (applied2, w2) ∧
    w1 !! 0%nat = Some s1 ∧ w2 !! 0%nat = Some s2 ∧
    variables s1 !! var_name (staged Example.w_grad) = Some [1; 2]%Q ∧
    variables s2 !! var_name (pending Example.w_grad) = Some [10; 20]%Q.
Proof.
  eexists _, _, _, _, _, _. split_and!.
  - vm_compute. reflexivity.
  - vm_compute. reflexivity.
  - reflexivity.
  - reflexivity.
  - vm_compute. reflexivity.
  - vm_compute. reflexivity.
Qed.

(* ===================================================================== *)
(** ** Further properties *)

(** *** The name of the shadow buffers *)

Lemma split_cons sep c s :
  split sep (String c s)
  = if Ascii.eqb c sep then EmptyString :: split sep s
    else match split sep s with
         | w :: ws => String c w :: ws
         | [] => [String c EmptyString]
         end.
Proof. reflexivity. Qed.

Lemma split_nonempty sep s : split sep s ≠ [].
Proof.
  destruct s as [|c s]; [done|]. rewrite split_cons.
  destruct (Ascii.eqb c sep); [done|]. by destruct (split sep s).
Qed.

Lemma split_no_colon s : has_colon s = false → split ":"%char s = [s].
Proof.
  induction s as [|c s IH]; [done|]. cbn [has_colon].
  intros [Hc Hs]%orb_false_iff. by rewrite split_cons, Hc, (IH Hs).
Qed.

Lemma split_append a b :
  split ":"%char (a +:+ String ":"%char b)
  = split ":"%char a ++ split ":"%char b.
Proof.
  induction a as [|c a IH]; [reflexivity|].
  - change (split ":"%char (String c (a +:+ String ":"%char b))
            = split ":"%char (String c a) ++ split ":"%char b).
    rewrite !split_cons, IH.
    destruct (Ascii.eqb c ":"%char); [done|].
    pose proof (split_nonempty ":"%char a) as Hne.
    by destruct (split ":"%char a).
Qed.

Lemma join_split s : join (split ":"%char s) = without_colons s.
Proof.
  induction s as [|c s IH]; [done|]. rewrite split_cons. cbn [without_colons].
  destruct (Ascii.eqb c ":"%char); [exact IH|].
  pose proof (split_nonempty ":"%char s) as Hne.
  destruct (split ":"%char s) as [|w ws]; [done|].
  rewrite <- IH. reflexivity.
Qed.

(** The buffer names come from the gradient's name by dropping
    everything after the last colon and then every colon: for [op:idx]
    with no colon in [idx] the result is [op] without its colons, and a
    name with no colon at all gives the empty string. *)
Theorem strip_output_index_spec op idx :
  has_colon idx = false →
  strip_output_index (op +:+ String ":"%char idx) = without_colons op ∧
  strip_output_index idx = EmptyString.
Proof.
  intros Hidx. unfold strip_output_index. split.
  - rewrite split_append, (split_no_colon idx Hidx), removelast_last.
    apply join_split.
  - by rewrite (split_no_colon idx Hidx).
Qed.

Lemma strip_output_index_spec_witness :
  strip_output_index "tower:0/grad:1" = "tower0/grad" ∧
  strip_output_index "1" = "".
Proof.
  apply (strip_output_index_spec "tower:0/grad" "1"). reflexivity.
Defined.

Lemma shadow_names_cons_dense t var rest :
  shadow_names ((Some (Dense t), var) :: rest)
  = var_name (pending t) :: var_name (staged t) :: shadow_names rest.
Proof. reflexivity. Qed.

Lemma pending_in_shadow_names (gradients : list GradAndVar) i t var :
  gradients !! i = Some (Some (Dense t), var) →
  var_name (pending t) ∈ shadow_names gradients.
Proof.
  intros Hi. apply list_elem_of_In, in_flat_map. exists t. split.
  - apply list_elem_of_In. by eapply elem_of_dense_gradients.
  - by left.
Qed.

Lemma shadow_names_distinct (gradients : list GradAndVar) i j t t' var var' :
  NoDup (shadow_names gradients) → (i < j)%nat →
  gradients !! i = Some (Some (Dense t), var) →
  gradients !! j = Some (Some (Dense t'), var') →
  var_name (pending t) ≠ var_name (pending t').
Proof.
  revert i j. induction gradients as [|[[[t0|v0 i0 s0]|] var0] rest IH];
    intros i j Hnd Hlt Hi Hj; [done|..].
  - rewrite shadow_names_cons_dense in Hnd.
    apply NoDup_cons in Hnd as [Hfresh [_ Hnd]%NoDup_cons].
    destruct j as [|j]; [lia|]. destruct i as [|i].
    + injection Hi as -> ->. intros Heq. apply Hfresh. right.
      rewrite Heq. by eapply pending_in_shadow_names.
    + apply (IH i j); [done|lia|done..].
  - destruct j as [|j]; [lia|]. destruct i as [|i]; [done|].
    apply (IH i j); [done|lia|done..].
  - destruct j as [|j]; [lia|]. destruct i as [|i]; [done|].
    apply (IH i j); [done|lia|done..].
Qed.

(** Two dense gradients of one list whose names agree once the output
    index is dropped, such as two outputs of one operation, ask for the
    same buffers: in deferred mode [compute_gradients] then raises,
    whatever variables the two gradients belong to. *)
Theorem deferred_name_collision
    size base self loss g gradients g1 i j t t' var var' :
  (1 < size)%Z → _deferred self = true →
  base loss g = Ok (gradients, g1) →
  i ≠ j →
  gradients !! i = Some (Some (Dense t), var) →
  gradients !! j = Some (Some (Dense t'), var') →
  strip_output_index (tensor_name t) = strip_output_index (tensor_name t') →
  ∃ e, compute_gradients size base self loss g = Raise e.
Proof.
  intros Hsize Hmode Hbase Hij Hi Hj Hname.
  destruct (compute_gradients_deferred _ _ _ _ _ _ _ Hsize Hmode Hbase)
    as [_ Hinv].
  destruct (compute_gradients size base self loss g) as [[out g2]|e];
    [|by exists e].
  destruct Hinv as (_ & Hnd & _); [by eexists|]. exfalso.
  assert (var_name (pending t) = var_name (pending t')) as Heq
    by (unfold pending; cbn; by rewrite Hname).
  destruct (decide (i < j)%nat).
  - by eapply (shadow_names_distinct gradients i j).
  - symmetry in Heq. eapply (shadow_names_distinct gradients j i); [done|lia|done..].
Qed.

Lemma deferred_name_collision_witness :
  ∃ e, compute_gradients 2 Cases.two_outputs Example.deferred Example.loss
         Example.graph = Raise e.
Proof.
  apply (deferred_name_collision 2 Cases.two_outputs Example.deferred
           Example.loss Example.graph
           [(Some (Dense Cases.first_output), Example.w);
            (Some (Dense Cases.second_output), Example.b)]
           Example.graph 0%nat 1%nat
           Cases.first_output Cases.second_output Example.w Example.b).
  - reflexivity.
  - reflexivity.
  - reflexivity.
  - discriminate.
  - reflexivity.
  - reflexivity.
  - reflexivity.
Defined.

(** *** Immediate mode *)

Lemma add_collectives_app a b g :
  add_collectives b (add_collectives a g) = add_collectives (a ++ b) g.
Proof. unfold add_collectives. cbn. by rewrite <- app_assoc. Qed.

Lemma map_gradients_immediate_spec size self loss gradients g :
  _deferred self = false →
  map_gradients (reduce_gradient size self loss) gradients g
  = Ok (immediate_pair size <$> gradients,
        add_collectives (flat_map (reductions_of false) gradients) g).
Proof.
  intros Hmode. revert g.
  induction gradients as [|[[grad|] var] rest IH]; intros g.
  - cbn. by rewrite add_collectives_nil.
  - cbn [map_gradients]. unfold bind at 1.
    assert (reduce_gradient size self loss grad g
            = allreduce size grad true
                (_device_dense self) (_device_sparse self) g) as ->
      by (unfold reduce_gradient; by rewrite Hmode).
    destruct grad as [t|v i s];
      [rewrite allreduce_dense|rewrite allreduce_sparse].
    + fold (add_collectives [HorovodAllreduce t] g). unfold bind.
      rewrite IH, add_collectives_app. done.
    + fold (add_collectives [HorovodAllgather v; HorovodAllgather i] g).
      unfold bind. rewrite IH, add_collectives_app. done.
  - cbn [map_gradients]. unfold bind. rewrite IH. done.
Qed.

(** In immediate mode, in a group of more than one process,
    [compute_gradients] never raises: every gradient that is present is
    replaced by its averaged reduction (always the average; the wrapper
    has no option for the sum), absent ones stay, and the graph changes
    only by the collective operations added: no variable is created and
    no collection is touched. *)
Theorem compute_gradients_immediate size base self loss g gradients g1 :
  (1 < size)%Z → _deferred self = false →
  base loss g = Ok (gradients, g1) →
  compute_gradients size base self loss g
  = Ok (immediate_pair size <$> gradients,
        add_collectives (flat_map (reductions_of false) gradients) g1).
Proof.
  intros Hsize%Z.ltb_lt Hmode Hbase. unfold compute_gradients, bind.
  rewrite Hbase, Hsize, allreduce_gradients_map.
  by apply map_gradients_immediate_spec.
Qed.

Lemma compute_gradients_immediate_witness :
  ∃ out g',
    compute_gradients 2 Example.sparse_base Example.immediate Example.loss
      Example.model_graph = Ok (out, g') ∧
    out !! 2%nat = Some (None, Example.b) ∧
    global_variables g' = [Example.w; Example.b] ∧
    var_store g' = ∅ ∧ collections g' = ∅.
Proof.
  eexists _, _. split.
  - apply (compute_gradients_immediate 2 Example.sparse_base
             Example.immediate Example.loss Example.model_graph
             [(Some (Dense Example.w_grad), Example.w);
              (Some Example.embedding_grad, Example.embedding);
              (None, Example.b)]
             Example.model_graph); reflexivity.
  - repeat split; reflexivity.
Defined.

(** The value of an averaged reduction, element by element. *)
Lemma eval_averaged_spec size t (group : list Process) me (gs : list Value) n :
  size = Z.of_nat (length group) →
  Forall2 (λ p v, eval group p t = Some v) group gs →
  gs ≠ [] →
  Forall (λ v, length v = n) gs →
  ∃ v, eval group me (averaged size t) = Some v ∧ length v = n ∧
       ∀ j, (j < n)%nat →
         (nth j v 0 ==
            if is_floating (tensor_dtype t)
            then rank_sum gs j / inject_Z size
            else inject_Z (Qfloor (rank_sum gs j / inject_Z size)))%Q.
Proof.
  intros Hsize Hlocal Hne Hshape.
  destruct (allreduce_sum_spec gs n Hne Hshape) as (s & Hs & Hlen & Hsum).
  pose proof (Forall2_length _ _ _ Hlocal) as Hlg.
  apply mapM_Some_2 in Hlocal.
  rewrite eval_averaged, Hlocal. cbn [mbind option_bind].
  unfold average_values. rewrite Hs. cbn [mbind option_bind].
  unfold div_value. rewrite Hsize, inject_Z_size_nonzero
    by (rewrite Hlg; destruct gs; [done|cbn; lia]).
  eexists. split; [done|]. split; [by rewrite length_map|].
  intros j Hj.
  rewrite (nth_indep _ 0%Q (div_element (tensor_dtype t) 0
                              (inject_Z (Z.of_nat (length group)))))
    by (rewrite length_map; lia).
  rewrite (map_nth (λ x, div_element (tensor_dtype t) x _)).
  rewrite (div_element_proper _ _ _ _ (Hsum j)).
  unfold div_element. destruct (is_floating _); reflexivity.
Qed.

(** In immediate mode the gradient returned for a variable evaluates, on
    every process, to the average over the group of the local gradients of
    the same step: element j is the sum over the ranks divided by the group
    size. *)
Theorem immediate_gradient_is_current_average
    size base self loss g gradients g1 out g2
    (group : list Process) me (gs : list Value) n i t var :
  (1 < size)%Z → _deferred self = false →
  base loss g = Ok (gradients, g1) →
  compute_gradients size base self loss g = Ok (out, g2) →
  size = Z.of_nat (length group) →
  gradients !! i = Some (Some (Dense t), var) →
  Forall2 (λ p v, eval group p t = Some v) group gs →
  Forall (λ v, length v = n) gs →
  ∃ v,
    out !! i = Some (Some (Dense (averaged size t)), var) ∧
    eval_gradient group me (Some (Dense (averaged size t)), var)
    = Some (Some (DenseValue v)) ∧
    length v = n ∧
    ∀ j, (j < n)%nat →
      (nth j v 0 ==
         if is_floating (tensor_dtype t)
         then rank_sum gs j / inject_Z size
         else inject_Z (Qfloor (rank_sum gs j / inject_Z size)))%Q.
Proof.
  intros Hsize Hmode Hbase Hcg Hgroup Hi Hlocal Hshape.
  pose proof Hsize as Hlt%Z.ltb_lt.
  unfold compute_gradients, bind in Hcg.
  rewrite Hbase, Hlt, allreduce_gradients_map in Hcg.
  rewrite map_gradients_immediate_spec in Hcg by done.
  injection Hcg as <- <-.
  destruct (eval_averaged_spec size t group me gs n Hgroup Hlocal)
    as (v & Hv & Hlen & Hsum); [|done|].
  { intros ->. apply Forall2_length in Hlocal. cbn in Hlocal. lia. }
  exists v. split; [by rewrite list_lookup_fmap, Hi|].
  split; [|done]. unfold eval_gradient. cbn [fst eval_like]. by rewrite Hv.
Qed.

Lemma immediate_gradient_is_current_average_witness :
  ∃ v,
    eval_gradient
      (processes Example.step1 [Example.fresh_session; Example.fresh_session])
      {| computed := ∅; session := Example.fresh_session |}
      (Some (Dense (averaged 2 Example.w_grad)), Example.w)
    = Some (Some (DenseValue v)) ∧
    length v = 2%nat ∧
    ∀ j, (j < 2)%nat →
      (nth j v 0 == rank_sum [[1; 2]; [3; 4]] j / inject_Z 2)%Q.
Proof.
  destruct (immediate_gradient_is_current_average 2 Example.dense_base
              Example.immediate Example.loss Example.graph Example.gradients
              Example.graph (immediate_pair 2 <$> Example.gradients)
              (add_collectives
                 (flat_map (reductions_of false) Example.gradients)
                 Example.graph)
              (processes Example.step1
                 [Example.fresh_session; Example.fresh_session])
              {| computed := ∅; session := Example.fresh_session |}
              [[1; 2]; [3; 4]]%Q 2%nat 0%nat Example.w_grad Example.w)
    as (v & _ & Hv & Hlen & Hsum).
  - reflexivity.
  - reflexivity.
  - reflexivity.
  - vm_compute. reflexivity.
  - reflexivity.
  - reflexivity.
  - repeat constructor.
  - repeat constructor.
  - exists v. split; [exact Hv|]. split; [exact Hlen|exact Hsum].
Defined.

(** *** Every process gets the same gradients *)

(** In a group of more than one process, each gradient returned by
    [compute_gradients] has, in any run, the same value on every process
    (or fails on every process), in both modes and for dense and sparse
    gradients: the processes apply identical updates whatever their local
    gradients are. *)
Theorem returned_gradients_agree
    size base self loss g gradients g1 out g2 (group : list Process) me me' :
  (1 < size)%Z →
  base loss g = Ok (gradients, g1) →
  compute_gradients size base self loss g = Ok (out, g2) →
  ∀ gv, gv ∈ out → eval_gradient group me gv = eval_gradient group me' gv.
Proof.
  intros Hsize Hbase Hcg gv Hgv. destruct (_deferred self) eqn:Hmode.
  - destruct (compute_gradients_deferred _ _ _ _ _ _ _ Hsize Hmode Hbase)
      as [Hok Hinv].
    assert (deferrable g1 gradients) as Hcan by (apply Hinv; by eexists).
    rewrite (Hok Hcan) in Hcg. injection Hcg as <- <-.
    destruct Hcan as (Hdense & _ & _).
    apply list_elem_of_fmap in Hgv as ([[[t|v i s]|] var] & -> & Hin).
    + unfold eval_gradient, deferred_pair. cbn [fst snd eval_like].
      by rewrite !eval_deferred_gradient.
    + by destruct (proj1 (Forall_forall _ _) Hdense _ Hin).
    + done.
  - apply Z.ltb_lt in Hsize. unfold compute_gradients, bind in Hcg.
    rewrite Hbase, Hsize, allreduce_gradients_map in Hcg.
    rewrite map_gradients_immediate_spec in Hcg by done.
    injection Hcg as <- <-.
    apply list_elem_of_fmap in Hgv as ([[[t|v i s]|] var] & -> & Hin).
    + unfold eval_gradient, immediate_pair. cbn [fst snd eval_like].
      by rewrite !eval_averaged.
    + reflexivity.
    + reflexivity.
Qed.

Lemma returned_gradients_agree_witness :
  eval_gradient (processes Example.step1 Example.world)
    {| computed := {[ "gradients/w_grad:0" := [1; 2]%Q ]};
       session := Example.fresh_session |}
    (deferred_pair 2 Example.loss (Some (Dense Example.w_grad), Example.w))
  = eval_gradient (processes Example.step1 Example.world)
      {| computed := ∅; session := Example.fresh_session |}
      (deferred_pair 2 Example.loss (Some (Dense Example.w_grad), Example.w)).
Proof.
  apply (returned_gradients_agree 2 Example.dense_base Example.deferred
           Example.loss Example.graph Example.gradients Example.graph
           Example.returned Example.registered).
  - reflexivity.
  - reflexivity.
  - exact example_compute_gradients.
  - unfold Example.returned, Example.gradients. rewrite fmap_cons. left.
Defined.

(** *** Broadcasting the variables *)

Lemma broadcast_from_ready root (vs : list Value) x n :
  vs !! root = Some x → Forall (λ y, length y = n) vs →
  broadcast_from root vs = Some x.
Proof.
  intros Hroot Hlen. unfold broadcast_from. rewrite Hroot.
  cbn [mbind option_bind].
  assert (forallb (λ y, length y =? length x)%nat vs = true) as ->; [|done].
  apply forallb_forall. intros y Hy%list_elem_of_In. apply Nat.eqb_eq.
  rewrite Forall_forall in Hlen. rewrite (Hlen y Hy).
  symmetry. apply Hlen. by eapply list_elem_of_lookup_2.
Qed.

(** The broadcast of a variable that every process holds in its shape is
    the root's value, on every process. *)
Lemma eval_broadcast_variable vars (w : list Session) me root rootsess v :
  w !! root = Some rootsess → variables_ready vars w → v ∈ vars →
  ∃ x, variables rootsess !! var_name v = Some x ∧
       eval (idle w) me (HorovodBroadcast (ReadVariable v) root) = Some x.
Proof.
  intros Hroot Hready Hv.
  destruct (Hready rootsess v) as (x & Hx & Hlx);
    [by eapply list_elem_of_lookup_2|done|].
  exists x. split; [exact Hx|]. cbn [eval].
  assert (mapM (λ p, variables (session p) !! var_name v) (idle w)
          = Some ((λ s, default [] (variables s !! var_name v)) <$> w)) as ->.
  { apply mapM_Some_2. unfold idle.
    apply Forall2_fmap_l, Forall2_fmap_r, Forall_Forall2_diag, Forall_forall.
    intros s Hs. unfold compose. cbn [session].
    destruct (Hready s v Hs Hv) as (y & -> & _). done. }
  cbn [mbind option_bind].
  apply (broadcast_from_ready _ _ _ (num_elements (var_shape v))).
  - rewrite list_lookup_fmap, Hroot. cbn. by rewrite Hx.
  - apply Forall_fmap, Forall_forall. intros s Hs. unfold compose.
    destruct (Hready s v Hs Hv) as (y & -> & Hy). done.
Qed.

Lemma run_broadcast_assigns (w : list Session) me graph root rootsess
    vars0 vars (m : gmap string Value) :
  w !! root = Some rootsess → variables_ready vars0 w → vars ⊆ vars0 →
  ∃ m',
    run_ops (idle w) me (broadcast_assign graph root <$> vars) m = Some m' ∧
    (∀ v, v ∈ vars →
       m' !! var_name v = variables rootsess !! var_name v) ∧
    (∀ n, n ∉ (var_name <$> vars) → m' !! n = m !! n).
Proof.
  intros Hroot Hready. revert m.
  induction vars as [|v0 vars IH]; intros m Hsub.
  - exists m. split; [done|]. split; [by intros v ?%elem_of_nil|done].
  - destruct (eval_broadcast_variable vars0 w me root rootsess v0)
      as (x & Hx & Hev); [done|done|apply Hsub; by left|].
    destruct (IH (<[var_name v0 := x]> m)) as (m' & Hrun & Hset & Hframe).
    { intros v Hv. apply Hsub. by right. }
    exists m'. split; [|split].
    + rewrite fmap_cons, run_ops_cons.
      change (run_op (idle w) me (broadcast_assign graph root v0) m)
        with (x' ← eval (idle w) me (HorovodBroadcast (ReadVariable v0) root);
              Some (<[var_name v0 := x']> m)).
      rewrite Hev. cbn [mbind option_bind]. exact Hrun.
    + intros v [->|Hv]%elem_of_cons; [|by apply Hset].
      destruct (decide (var_name v0 ∈ var_name <$> vars)) as [Hin|Hout].
      * apply list_elem_of_fmap in Hin as (u & Hname & Hu).
        rewrite Hname. by apply Hset.
      * rewrite Hframe by done. by rewrite lookup_insert_eq.
    + intros n Hn. rewrite fmap_cons in Hn.
      apply not_elem_of_cons in Hn as [Hne Hn].
      rewrite Hframe by done. by rewrite lookup_insert_ne.
Qed.

Lemma create_sessions_spec root dev graph vars (w : list Session) rootsess :
  w !! root = Some rootsess →
  variables_ready vars w →
  ∃ w',
    create_sessions
      {| root_rank := root;
         bcast_op := Some (Group graph (broadcast_assign graph root <$> vars));
         device := dev |} w = Some w' ∧
    length w' = length w ∧
    ∀ k s s', w !! k = Some s → w' !! k = Some s' →
      run_calls s' = S (run_calls s) ∧
      (∀ v, v ∈ vars →
            variables s' !! var_name v = variables rootsess !! var_name v) ∧
      (∀ n, n ∉ (var_name <$> vars) →
            variables s' !! n = variables s !! n).
Proof.
  intros Hroot Hready. unfold create_sessions.
  assert (∀ p, ∃ s',
            after_create_session
              {| root_rank := root;
                 bcast_op := Some (Group graph
                   (broadcast_assign graph root <$> vars));
                 device := dev |} (idle w) p = Some s' ∧
            run_calls s' = S (run_calls (session p)) ∧
            (∀ v, v ∈ vars →
               variables s' !! var_name v
               = variables rootsess !! var_name v) ∧
            (∀ n, n ∉ (var_name <$> vars) →
               variables s' !! n = variables (session p) !! n)) as Hone.
  { intros p.
    destruct (run_broadcast_assigns w p graph root rootsess vars
                vars (variables (session p)) Hroot Hready)
      as (m' & Hrun & Hset & Hframe); [done|].
    eexists. split; [|split; [|split]].
    - unfold after_create_session. cbn [bcast_op mbind option_bind].
      unfold Session_run. rewrite run_op_group, Hrun. reflexivity.
    - reflexivity.
    - exact Hset.
    - exact Hframe. }
  assert (is_Some (mapM (after_create_session
            {| root_rank := root;
               bcast_op := Some (Group graph
                 (broadcast_assign graph root <$> vars));
               device := dev |} (idle w)) (idle w))) as [w' Hw'].
  { apply mapM_is_Some_2, Forall_forall. intros p _. unfold compose.
    destruct (Hone p) as (s' & Hs' & _). rewrite Hs'. by eexists. }
  exists w'. split; [exact Hw'|split].
  - apply length_mapM in Hw'. rewrite <- Hw'. unfold idle.
    by rewrite length_fmap.
  - intros k s s' Hs Hs'. apply mapM_Some_1 in Hw'.
    assert (idle w !! k = Some {| computed := ∅; session := s |}) as Hp
      by (unfold idle; by rewrite list_lookup_fmap, Hs).
    destruct (Forall2_lookup_l _ _ _ _ _ Hw' Hp) as (s'' & Hs'' & Hrun).
    rewrite Hs' in Hs''. injection Hs'' as <-.
    destruct (Hone {| computed := ∅; session := s |})
      as (s2 & Hrun2 & Hcalls & Hset & Hframe).
    cbv beta in Hrun. rewrite Hrun in Hrun2. injection Hrun2 as <-.
    done.
Qed.

(** The variables stay ready when the broadcast has run. *)
Lemma create_sessions_ready vars (w w' : list Session) root rootsess :
  w !! root = Some rootsess → variables_ready vars w →
  length w' = length w →
  (∀ k s s', w !! k = Some s → w' !! k = Some s' →
     ∀ v, v ∈ vars →
       variables s' !! var_name v = variables rootsess !! var_name v) →
  variables_ready vars w'.
Proof.
  intros Hroot Hready Hlen Hall s' v Hs' Hv.
  apply list_elem_of_lookup_1 in Hs' as [k Hk].
  assert (is_Some (w !! k)) as [s Hs].
  { apply lookup_lt_is_Some_2. rewrite <- Hlen. by eapply lookup_lt_Some. }
  rewrite (Hall k s s' Hs Hk v Hv).
  apply Hready; [by eapply list_elem_of_lookup_2|done].
Qed.

Lemma begin_first root dev g :
  begin (BroadcastGlobalVariablesHook__init__ root dev) g
  = Ok ({| root_rank := root;
           bcast_op := Some (Group (graph_id g)
             (broadcast_assign (graph_id g) root <$> global_variables g));
           device := dev |},
        add_collectives
          ((λ v, HorovodBroadcast (ReadVariable v) root)
             <$> global_variables g) g).
Proof.
  unfold begin, bind at 1. cbn [tf_get_default_graph].
  unfold BroadcastGlobalVariablesHook__init__ at 1. cbn [bcast_op].
  unfold bind. rewrite broadcast_global_variables_spec. reflexivity.
Qed.

Lemma example_variables_ready :
  variables_ready (global_variables Example.model_graph) Cases.diverged.
Proof.
  intros s v Hs Hv.
  apply elem_of_cons in Hs as [->|Hs];
    [|apply elem_of_cons in Hs as [->|Hs]; [|by apply elem_of_nil in Hs]].
  all: apply elem_of_cons in Hv as [->|Hv];
    [|apply elem_of_cons in Hv as [->|Hv]; [|by apply elem_of_nil in Hv]].
  all: eexists; split; [vm_compute; reflexivity|reflexivity].
Qed.

(** After [begin] and then [after_create_session] on every process,
    every global variable has on every process the value it had on the
    root process before, whatever values of the variables' shapes the
    other processes held; variables that are not global are left alone,
    and each process has made one [run] call.  The root must be a process
    of the group, and every process must hold a value of its shape for
    each global variable, since each process feeds its own variable to
    the broadcast. *)
Theorem broadcast_makes_processes_agree root dev g (w : list Session) rootsess :
  w !! root = Some rootsess →
  variables_ready (global_variables g) w →
  ∃ hook g' w',
    begin (BroadcastGlobalVariablesHook__init__ root dev) g = Ok (hook, g') ∧
    create_sessions hook w = Some w' ∧
    length w' = length w ∧
    ∀ k s s', w !! k = Some s → w' !! k = Some s' →
      run_calls s' = S (run_calls s) ∧
      (∀ v, v ∈ global_variables g →
            variables s' !! var_name v = variables rootsess !! var_name v) ∧
      (∀ n, n ∉ (var_name <$> global_variables g) →
            variables s' !! n = variables s !! n).
Proof.
  intros Hroot Hready.
  destruct (create_sessions_spec root dev (graph_id g) (global_variables g)
              w rootsess Hroot Hready) as (w' & Hrun & Hlen & Hall).
  eexists _, _, w'. split; [apply begin_first|].
  split; [exact Hrun|]. split; [exact Hlen|exact Hall].
Qed.

Lemma broadcast_makes_processes_agree_witness :
  ∃ hook g' w',
    begin (BroadcastGlobalVariablesHook__init__ 0 "") Example.model_graph
      = Ok (hook, g') ∧
    create_sessions hook Cases.diverged = Some w' ∧
    ∀ k s', w' !! k = Some s' →
      variables s' !! "w" = Some [1; 2]%Q ∧
      variables s' !! "b" = Some [3]%Q.
Proof.
  destruct (broadcast_makes_processes_agree 0 "" Example.model_graph
              Cases.diverged
              {| variables :=
                   {[ "w" := [1; 2]%Q; "b" := [3]%Q; "step" := [7]%Q ]};
                 run_calls := 0 |})
    as (hook & g' & w' & Hbegin & Hrun & Hlen & Hall).
  - reflexivity.
  - exact example_variables_ready.
  - exists hook, g', w'. split; [exact Hbegin|]. split; [exact Hrun|].
    intros k s' Hs'.
    assert (k < length Cases.diverged)%nat as Hk
      by (rewrite <- Hlen; by eapply lookup_lt_Some).
    destruct (lookup_lt_is_Some_2 _ _ Hk) as [s Hs].
    destruct (Hall k s s' Hs Hs') as (_ & Hset & _).
    split.
    + apply (Hset Example.w). by left.
    + apply (Hset Example.b). right. by left.
Defined.

(** Broadcasting a second time changes no variable: once the processes
    agree with the root, [after_create_session] leaves every variable of
    every process as it is. *)
Theorem broadcast_is_idempotent root dev g (w : list Session) rootsess :
  w !! root = Some rootsess →
  variables_ready (global_variables g) w →
  ∃ hook g' w' w'',
    begin (BroadcastGlobalVariablesHook__init__ root dev) g = Ok (hook, g') ∧
    create_sessions hook w = Some w' ∧
    create_sessions hook w' = Some w'' ∧
    ∀ k s' s'', w' !! k = Some s' → w'' !! k = Some s'' →
      variables s'' = variables s'.
Proof.
  intros Hroot Hready.
  destruct (create_sessions_spec root dev (graph_id g) (global_variables g)
              w rootsess Hroot Hready) as (w' & Hrun & Hlen & Hall).
  assert (is_Some (w' !! root)) as [rs' Hrs'].
  { apply lookup_lt_is_Some_2. rewrite Hlen. by eapply lookup_lt_Some. }
  destruct (Hall root rootsess rs' Hroot Hrs') as (_ & Hrootset & _).
  destruct (create_sessions_spec root dev (graph_id g) (global_variables g)
              w' rs' Hrs') as (w'' & Hrun' & Hlen' & Hall').
  { apply (create_sessions_ready _ w w' root rootsess); [done..|].
    intros k s s' Hs Hs'. by destruct (Hall k s s' Hs Hs') as (_ & ? & _). }
  eexists _, _, w', w''. split; [apply begin_first|].
  split; [exact Hrun|]. split; [exact Hrun'|].
  intros k s' s'' Hs' Hs''.
  assert (is_Some (w !! k)) as [s Hs].
  { apply lookup_lt_is_Some_2. rewrite <- Hlen. by eapply lookup_lt_Some. }
  destruct (Hall k s s' Hs Hs') as (_ & Hset & _).
  destruct (Hall' k s' s'' Hs' Hs'') as (_ & Hset' & Hframe').
  apply map_eq. intros n.
  destruct (decide (n ∈ var_name <$> global_variables g)) as [Hin|Hout].
  - apply list_elem_of_fmap in Hin as (v & -> & Hv).
    by rewrite Hset', Hrootset, Hset.
  - by apply Hframe'.
Qed.

Lemma broadcast_is_idempotent_witness :
  ∃ hook g' w' w'',
    begin (BroadcastGlobalVariablesHook__init__ 0 "") Example.model_graph
      = Ok (hook, g') ∧
    create_sessions hook Cases.diverged = Some w' ∧
    create_sessions hook w' = Some w'' ∧
    ∀ k s' s'', w' !! k = Some s' → w'' !! k = Some s'' →
      variables s'' = variables s'.
Proof.
  apply (broadcast_is_idempotent 0 "" Example.model_graph Cases.diverged
           {| variables :=
                {[ "w" := [1; 2]%Q; "b" := [3]%Q; "step" := [7]%Q ]};
              run_calls := 0 |}).
  - reflexivity.
  - exact example_variables_ready.
Defined.

Lemma eval_broadcast_unready (w : list Session) me root s v :
  s ∈ w → variables s !! var_name v = None →
  eval (idle w) me (HorovodBroadcast (ReadVariable v) root) = None.
Proof.
  intros Hs Hnone. cbn [eval].
  destruct (mapM (λ p, variables (session p) !! var_name v) (idle w))
    as [vs|] eqn:Hvs; [|done].
  apply mapM_Some_1 in Hvs. apply list_elem_of_lookup_1 in Hs as [k Hk].
  assert (idle w !! k = Some {| computed := ∅; session := s |}) as Hp
    by (unfold idle; by rewrite list_lookup_fmap, Hk).
  destruct (Forall2_lookup_l _ _ _ _ _ Hvs Hp) as (y & _ & Hy).
  cbn in Hy. congruence.
Qed.

Lemma run_broadcast_unready (w : list Session) me graph root s v vars
    (m : gmap string Value) :
  s ∈ w → variables s !! var_name v = None → v ∈ vars →
  run_ops (idle w) me (broadcast_assign graph root <$> vars) m = None.
Proof.
  intros Hs Hnone. revert m.
  induction vars as [|v0 vars IH]; intros m Hv; [by apply elem_of_nil in Hv|].
  rewrite fmap_cons, run_ops_cons.
  change (run_op (idle w) me (broadcast_assign graph root v0) m)
    with (x' ← eval (idle w) me (HorovodBroadcast (ReadVariable v0) root);
          Some (<[var_name v0 := x']> m)).
  apply elem_of_cons in Hv as [<-|Hv].
  - by rewrite (eval_broadcast_unready w me root s v).
  - destruct (eval (idle w) me _) as [x|]; [|done].
    cbn [mbind option_bind]. by apply IH.
Qed.

(** The broadcast does not stand in for the initialization of the other
    processes: each process feeds its own variable to the broadcast, so
    when some process holds no value for some global variable, the [run]
    call of [after_create_session] fails. *)
Theorem broadcast_needs_every_variable root dev g (w : list Session) s v :
  s ∈ w → v ∈ global_variables g →
  variables s !! var_name v = None →
  ∃ hook g',
    begin (BroadcastGlobalVariablesHook__init__ root dev) g = Ok (hook, g') ∧
    (∀ me, after_create_session hook (idle w) me = None) ∧
    create_sessions hook w = None.
Proof.
  intros Hs Hv Hnone. eexists _, _. split; [apply begin_first|].
  assert (∀ me,
            after_create_session
              {| root_rank := root;
                 bcast_op := Some (Group (graph_id g)
                   (broadcast_assign (graph_id g) root
                      <$> global_variables g));
                 device := dev |} (idle w) me = None) as Hfail.
  { intros me. unfold after_create_session. cbn [bcast_op mbind option_bind].
    unfold Session_run. rewrite run_op_group.
    by rewrite (run_broadcast_unready w me _ root s v). }
  split; [exact Hfail|]. unfold create_sessions.
  destruct (mapM _ (idle w)) as [w'|] eqn:Hw'; [|done].
  apply mapM_Some_1 in Hw'. apply list_elem_of_lookup_1 in Hs as [k Hk].
  assert (idle w !! k = Some {| computed := ∅; session := s |}) as Hp
    by (unfold idle; by rewrite list_lookup_fmap, Hk).
  destruct (Forall2_lookup_l _ _ _ _ _ Hw' Hp) as (y & _ & Hy).
  cbv beta in Hy. by rewrite Hfail in Hy.
Qed.

Lemma broadcast_needs_every_variable_witness :
  ∃ hook g',
    begin (BroadcastGlobalVariablesHook__init__ 0 "") Example.model_graph
      = Ok (hook, g') ∧
    create_sessions hook Cases.unready = None.
Proof.
  destruct (broadcast_needs_every_variable 0 "" Example.model_graph
              Cases.unready
              {| variables := {[ "w" := [5; 6]%Q; "step" := [9]%Q ]};
                 run_calls := 4 |}
              Example.b)
    as (hook & g' & Hbegin & _ & Hfail).
  - right. left.
  - right. left.
  - reflexivity.
  - exists hook, g'. split; [exact Hbegin|exact Hfail].
Defined.

(** *** The flip and when the hook is built *)

(** What deferred registration leaves in a graph with no other staged
    update and no other flip. *)
Lemma deferred_pipeline size base self loss g gradients g1 out g2 :
  (1 < size)%Z → _deferred self = true →
  base loss g = Ok (gradients, g1) →
  collection GraphKeys.UPDATE_OPS g1 = [] →
  collection GraphKeys.GRAD_FLIP_OPS g1 = [] →
  compute_gradients size base self loss g = Ok (out, g2) →
  deferrable g1 gradients ∧
  out = deferred_pair size loss <$> gradients ∧
  graph_id g2 = graph_id g1 ∧
  collection GraphKeys.UPDATE_OPS g2
  = assign_all (graph_id g1) staged (λ t, t) (dense_gradients gradients) ∧
  collection GraphKeys.GRAD_FLIP_OPS g2
  = assign_all (graph_id g1) pending (λ t, ReadVariable (staged t))
      (dense_gradients gradients).
Proof.
  intros Hsize Hmode Hbase HU HF Hcg.
  destruct (compute_gradients_deferred _ _ _ _ _ _ _ Hsize Hmode Hbase)
    as [Hok Hinv].
  assert (deferrable g1 gradients) as Hcan by (apply Hinv; by eexists).
  rewrite (Hok Hcan) in Hcg. injection Hcg as <- <-.
  split; [done|]. split; [done|]. split; [apply registered_graph_id|].
  rewrite registered_graph_updates, registered_graph_flips, HU, HF. done.
Qed.

Lemma hook_of_graph g hook g' :
  PostStepHook__init__ g = Ok (hook, g') →
  hook = {| grad_flip_ops := collection GraphKeys.GRAD_FLIP_OPS g;
            grad_flip_ops_group :=
              Group (graph_id g) (collection GraphKeys.GRAD_FLIP_OPS g) |}
  ∧ g' = g.
Proof.
  unfold PostStepHook__init__, bind, tf_get_collection, tf_group, ret.
  by intros [= <- <-].
Qed.

Lemma run_after_no_flips hook (w : list Session) :
  grad_flip_ops hook = [] → run_after hook w = Some w.
Proof.
  intros Hnone. unfold run_after, idle.
  apply mapM_Some_2, Forall2_fmap_l, Forall_Forall2_diag, Forall_forall.
  intros s _. unfold after_run. by rewrite Hnone.
Qed.

(** After a whole step of deferred mode, [run] call and hook, the pending
    and the staged buffer of every gradient hold, on every process, the
    local gradient that process computed in this step. *)
Theorem step_leaves_buffers_equal
    size base self loss g gradients g1 out g2 hook g3
    (feeds : list (gmap string Value)) (w : list Session) :
  (1 < size)%Z → _deferred self = true →
  base loss g = Ok (gradients, g1) →
  collection GraphKeys.UPDATE_OPS g1 = [] →
  collection GraphKeys.GRAD_FLIP_OPS g1 = [] →
  compute_gradients size base self loss g = Ok (out, g2) →
  PostStepHook__init__ g2 = Ok (hook, g3) →
  size = Z.of_nat (length w) → length feeds = length w →
  buffers_ready (dense_gradients gradients) w →
  locals_ready (dense_gradients gradients) feeds →
  ∃ (run : list (list (option GradValue) * Session)) w1,
    train_step out (collection GraphKeys.UPDATE_OPS g3) hook feeds w
      = Some (run.*1, w1) ∧
    ∀ k f s1 t,
      feeds !! k = Some f → w1 !! k = Some s1 →
      t ∈ dense_gradients gradients →
      ∃ x, local_value f t = Some x
           ∧ variables s1 !! var_name (pending t) = Some x
           ∧ variables s1 !! var_name (staged t) = Some x.
Proof.
  intros Hsize Hmode Hbase HU HF Hcg Hhook Hw Hlen Hready Hlocal.
  destruct (deferred_pipeline _ _ _ _ _ _ _ _ _ Hsize Hmode Hbase HU HF Hcg)
    as ((Hdense & Hnd & _) & -> & Hid & HU2 & HF2).
  apply hook_of_graph in Hhook as [-> ->]. rewrite HU2, HF2.
  assert (w ≠ []) as Hne by (intros ->; cbn in Hw; lia).
  destruct (deferred_step_spec size loss (graph_id g1) (graph_id g2)
              gradients feeds w Hdense Hnd Hready Hlocal Hlen Hne Hw)
    as (run & w1 & Hrun & Hafter & Hlr & Hlw & _ & Hfacts).
  exists run, w1. split; [by apply train_step_compose|].
  intros k f s1 t Hf Hs1 Ht.
  assert (is_Some (w !! k)) as [s Hs].
  { apply lookup_lt_is_Some_2. rewrite <- Hlw. by eapply lookup_lt_Some. }
  destruct (Hfacts k f s Hf Hs) as (r & s' & Hr & Hs' & Hbuf & _).
  rewrite Hs1 in Hs'. injection Hs' as <-.
  destruct (Hbuf t Ht) as (x & Hx & _ & Hc & Hp).
  exists x. split; [done|]. split; [done|].
  unfold run_after in Hafter. apply mapM_Some_1 in Hafter.
  assert (idle (run.*2) !! k = Some {| computed := ∅; session := r.2 |})
    as Hp' by (unfold idle; by rewrite !list_lookup_fmap, Hr).
  destruct (Forall2_lookup_l _ _ _ _ _ Hafter Hp') as (s'' & Hs'' & Hflip).
  rewrite Hs1 in Hs''. injection Hs'' as <-.
  destruct (after_run_inv _ _ _ _ _ _ Hnd Hflip) as (_ & Hkeep).
  by rewrite Hkeep.
Qed.

Lemma step_leaves_buffers_equal_witness :
  ∃ (run : list (list (option GradValue) * Session)) w1,
    train_step Example.returned
      (collection GraphKeys.UPDATE_OPS Example.registered) Example.hook
      Example.step1 Example.world = Some (run.*1, w1) ∧
    ∀ k f s1,
      Example.step1 !! k = Some f → w1 !! k = Some s1 →
      ∃ x, local_value f Example.w_grad = Some x
           ∧ variables s1 !! var_name (pending Example.w_grad) = Some x
           ∧ variables s1 !! var_name (staged Example.w_grad) = Some x.
Proof.
  destruct (step_leaves_buffers_equal 2 Example.dense_base Example.deferred
              Example.loss Example.graph Example.gradients Example.graph
              Example.returned Example.registered Example.hook
              Example.registered Example.step1 Example.world)
    as (run & w1 & Hstep & Hall).
  - reflexivity.
  - reflexivity.
  - reflexivity.
  - reflexivity.
  - reflexivity.
  - exact example_compute_gradients.
  - vm_compute. reflexivity.
  - reflexivity.
  - reflexivity.
  - apply (initialized_buffers_ready _ Example.graph).
    + apply (bool_decide_unpack _). vm_compute. exact I.
    + intros s Hs. exists Example.fresh_session.
      apply elem_of_cons in Hs as [->|Hs]; [reflexivity|].
      apply elem_of_cons in Hs as [->|Hs]; [reflexivity|].
      by apply elem_of_nil in Hs.
  - apply example_locals_ready. by left.
  - exists run, w1. split; [exact Hstep|].
    intros k f s1 Hf Hs1. apply (Hall k f s1 Example.w_grad Hf Hs1).
    by left.
Defined.

(** A hook built before [compute_gradients] has registered its flips
    holds none and never flips: a step then leaves every pending buffer
    of every process as it was, so the gradients returned keep being the
    average of the same pending values, step after step. *)
Theorem early_hook_never_flips
    size base self loss g gradients g1 out g2 g0 hook g0'
    (feeds : list (gmap string Value)) (w : list Session) :
  (1 < size)%Z → _deferred self = true →
  base loss g = Ok (gradients, g1) →
  collection GraphKeys.UPDATE_OPS g1 = [] →
  collection GraphKeys.GRAD_FLIP_OPS g1 = [] →
  compute_gradients size base self loss g = Ok (out, g2) →
  collection GraphKeys.GRAD_FLIP_OPS g0 = [] →
  PostStepHook__init__ g0 = Ok (hook, g0') →
  size = Z.of_nat (length w) → length feeds = length w →
  buffers_ready (dense_gradients gradients) w →
  locals_ready (dense_gradients gradients) feeds →
  ∃ (run : list (list (option GradValue) * Session)),
    train_step out (collection GraphKeys.UPDATE_OPS g2) hook feeds w
      = Some (run.*1, run.*2) ∧
    length run = length w ∧
    ∀ k s r t,
      w !! k = Some s → run !! k = Some r →
      variables r.2 !! var_name (pending t)
      = variables s !! var_name (pending t).
Proof.
  intros Hsize Hmode Hbase HU HF Hcg HF0 Hhook Hw Hlen Hready Hlocal.
  destruct (deferred_pipeline _ _ _ _ _ _ _ _ _ Hsize Hmode Hbase HU HF Hcg)
    as ((Hdense & Hnd & _) & -> & Hid & HU2 & _).
  apply hook_of_graph in Hhook as [-> _]. rewrite HU2, HF0.
  assert (w ≠ []) as Hne by (intros ->; cbn in Hw; lia).
  destruct (deferred_step_spec size loss (graph_id g1) (graph_id g2)
              gradients feeds w Hdense Hnd Hready Hlocal Hlen Hne Hw)
    as (run & w1 & Hrun & _ & Hlr & _ & _ & Hfacts).
  exists run. split; [|split; [done|]].
  - apply train_step_compose; [done|]. by apply run_after_no_flips.
  - intros k s r t Hs Hr.
    assert (is_Some (feeds !! k)) as [f Hf].
    { apply lookup_lt_is_Some_2. rewrite Hlen. by eapply lookup_lt_Some. }
    destruct (Hfacts k f s Hf Hs) as (r' & s' & Hr' & _ & _ & Hkeep & _).
    rewrite Hr in Hr'. injection Hr' as <-. apply Hkeep.
Qed.

Lemma early_hook_never_flips_witness :
  ∃ (run : list (list (option GradValue) * Session)),
    train_step Example.returned
      (collection GraphKeys.UPDATE_OPS Example.registered)
      {| grad_flip_ops := []; grad_flip_ops_group := Group 1 [] |}
      Example.step1 Example.world = Some (run.*1, run.*2) ∧
    ∀ k s r,
      Example.world !! k = Some s → run !! k = Some r →
      variables r.2 !! var_name (pending Example.w_grad)
      = variables s !! var_name (pending Example.w_grad).
Proof.
  destruct (early_hook_never_flips 2 Example.dense_base Example.deferred
              Example.loss Example.graph Example.gradients Example.graph
              Example.returned Example.registered Example.graph
              {| grad_flip_ops := []; grad_flip_ops_group := Group 1 [] |}
              Example.graph Example.step1 Example.world)
    as (run & Hstep & _ & Hall).
  - reflexivity.
  - reflexivity.
  - reflexivity.
  - reflexivity.
  - reflexivity.
  - exact example_compute_gradients.
  - reflexivity.
  - reflexivity.
  - reflexivity.
  - reflexivity.
  - apply (initialized_buffers_ready _ Example.graph).
    + apply (bool_decide_unpack _). vm_compute. exact I.
    + intros s Hs. exists Example.fresh_session.
      apply elem_of_cons in Hs as [->|Hs]; [reflexivity|].
      apply elem_of_cons in Hs as [->|Hs]; [reflexivity|].
      by apply elem_of_nil in Hs.
  - apply example_locals_ready. by left.
  - exists run. split; [exact Hstep|].
    intros k s r Hs Hr. exact (Hall k s r Example.w_grad Hs Hr).
Defined.

Lemma run_assign_all_perm group me graph target value ts ts' vars :
  NoDup (var_name ∘ target <$> ts) → ts' ≡ₚ ts →
  run_ops group me (assign_all graph target value ts') vars
  = run_ops group me (assign_all graph target value ts) vars.
Proof.
  intros Hnd Hperm.
  assert (NoDup (var_name ∘ target <$> ts')) as Hnd' by (by rewrite Hperm).
  destruct (run_ops group me (assign_all graph target value ts') vars)
    as [m1|] eqn:H1;
    destruct (run_ops group me (assign_all graph target value ts) vars)
      as [m2|] eqn:H2; [| | |done].
  - f_equal. apply map_eq. intros n.
    destruct (run_assign_all_inv _ _ _ _ _ _ _ _ H1) as [Hf1 Hs1].
    destruct (run_assign_all_inv _ _ _ _ _ _ _ _ H2) as [Hf2 Hs2].
    destruct (decide (n ∈ var_name ∘ target <$> ts)) as [Hin|Hout].
    + apply list_elem_of_fmap in Hin as (t & -> & Ht).
      destruct (Hs2 Hnd t Ht) as (x & Hx & Hm2).
      destruct (Hs1 Hnd' t) as (x' & Hx' & Hm1); [by rewrite Hperm|].
      unfold compose. rewrite Hm1, Hm2. congruence.
    + rewrite Hf1, Hf2; [done|done|by rewrite Hperm].
  - exfalso.
    destruct (run_assign_all_inv _ _ _ _ _ _ _ _ H1) as [_ Hs1].
    destruct (run_assign_all_is_Some group me graph target value ts vars)
      as [m2 Hm2]; [|congruence].
    intros t Ht. destruct (Hs1 Hnd' t) as (x & -> & _); [by rewrite Hperm|].
    by eexists.
  - exfalso.
    destruct (run_assign_all_inv _ _ _ _ _ _ _ _ H2) as [_ Hs2].
    destruct (run_assign_all_is_Some group me graph target value ts' vars)
      as [m1 Hm1]; [|congruence].
    intros t Ht. destruct (Hs2 Hnd t) as (x & -> & _); [by rewrite <- Hperm|].
    by eexists.
Qed.

(** The flips registered by one [compute_gradients] call write pairwise
    distinct buffers: running them in any other order, as the group
    operation of the hook may, gives the same variables (and fails exactly
    when the registered order fails). *)
Theorem flips_order_irrelevant
    size base self loss g gradients g1 out g2 group me vars ts' :
  (1 < size)%Z → _deferred self = true →
  base loss g = Ok (gradients, g1) →
  collection GraphKeys.GRAD_FLIP_OPS g1 = [] →
  compute_gradients size base self loss g = Ok (out, g2) →
  ts' ≡ₚ dense_gradients gradients →
  run_op group me (Group (graph_id g2) (flip_op (graph_id g1) <$> ts')) vars
  = run_op group me
      (Group (graph_id g2) (collection GraphKeys.GRAD_FLIP_OPS g2)) vars.
Proof.
  intros Hsize Hmode Hbase HF Hcg Hperm.
  destruct (compute_gradients_deferred _ _ _ _ _ _ _ Hsize Hmode Hbase)
    as [Hok Hinv].
  assert (deferrable g1 gradients) as Hcan by (apply Hinv; by eexists).
  rewrite (Hok Hcan) in Hcg. injection Hcg as <- <-.
  destruct Hcan as (_ & Hnd & _).
  rewrite registered_graph_flips, HF, app_nil_l, !run_op_group.
  apply (run_assign_all_perm group me (graph_id g1) pending
           (λ t, ReadVariable (staged t))); [|done].
  by apply NoDup_shadow_names.
Qed.

Lemma flips_order_irrelevant_witness :
  run_op [] {| computed := ∅; session := Example.fresh_session |}
    (Group 1 [flip_op 1 Example.b_grad; flip_op 1 Example.w_grad])
    {[ "gradients/w_grad_c" := [1; 2]%Q; "gradients/b_grad_c" := [5]%Q ]}
  = run_op [] {| computed := ∅; session := Example.fresh_session |}
      (Group 1 (collection GraphKeys.GRAD_FLIP_OPS Example.registered))
      {[ "gradients/w_grad_c" := [1; 2]%Q; "gradients/b_grad_c" := [5]%Q ]}.
Proof.
  apply (flips_order_irrelevant 2 Example.dense_base Example.deferred
           Example.loss Example.graph Example.gradients Example.graph
           Example.returned Example.registered [] _ _
           [Example.b_grad; Example.w_grad]).
  - reflexivity.
  - reflexivity.
  - reflexivity.
  - reflexivity.
  - exact example_compute_gradients.
  - apply perm_swap.
Defined.

(** The shadow buffers are global variables: a batched broadcast built
    after [compute_gradients] in deferred mode also broadcasts the pending
    and the staged buffer of every gradient, after the variables the graph
    had before. *)
Theorem shadow_buffers_are_broadcast
    size base self loss g gradients g1 out g2 root :
  (1 < size)%Z → _deferred self = true →
  base loss g = Ok (gradients, g1) →
  compute_gradients size base self loss g = Ok (out, g2) →
  broadcast_global_variables root g2
  = Ok (Group (graph_id g1)
          (broadcast_assign (graph_id g1) root
             <$> (global_variables g1
                  ++ flat_map (λ t, [pending t; staged t])
                       (dense_gradients gradients))),
        add_collectives
          ((λ v, HorovodBroadcast (ReadVariable v) root)
             <$> (global_variables g1
                  ++ flat_map (λ t, [pending t; staged t])
                       (dense_gradients gradients))) g2).
Proof.
  intros Hsize Hmode Hbase Hcg.
  destruct (compute_gradients_deferred _ _ _ _ _ _ _ Hsize Hmode Hbase)
    as [Hok Hinv].
  assert (deferrable g1 gradients) as Hcan by (apply Hinv; by eexists).
  rewrite (Hok Hcan) in Hcg. injection Hcg as <- <-.
  rewrite broadcast_global_variables_spec, registered_graph_id,
    registered_graph_variables.
  reflexivity.
Qed.

Lemma shadow_buffers_are_broadcast_witness :
  ∃ g3,
    broadcast_global_variables 0 Example.registered
    = Ok (Group 1
            (broadcast_assign 1 0
               <$> [pending Example.w_grad; staged Example.w_grad;
                    pending Example.b_grad; staged Example.b_grad]), g3).
Proof.
  eexists.
  apply (shadow_buffers_are_broadcast 2 Example.dense_base Example.deferred
           Example.loss Example.graph Example.gradients Example.graph
           Example.returned Example.registered 0).
  - reflexivity.
  - reflexivity.
  - reflexivity.
  - exact example_compute_gradients.
Defined.
